(** * Branded catalog PDF builder: a shallow embedding of [catalog_app.py]

    The development follows the three functions of the program:
    [read_zip_images], [img_to_reader] and [build_catalog_pdf].  The
    libraries the program calls (zipfile, Pillow, ReportLab) are represented
    by small executable models of the calls that the program makes:

    - a zip archive is the list of its entries, in archive order, each
      with its name and with what reading it yields (bytes or an
      exception);
    - a Pillow image is a size and a raster whose constructor is its mode;
      the decoder and the conversion to RGBA are parameters of the reader;
    - a ReportLab canvas is the list of finished pages together with the
      drawing operations of the page being composed, and the PDF byte
      string that [Canvas.save] writes is represented by the document
      structure it serialises (metadata title and pages of operations).

    Python floats are kept behind an interface ([PyFloat]) with two
    instances: exact rationals and IEEE binary64 (the kernel's primitive
    floats).  Everything that does not depend on arithmetic laws is proved
    for every instance, hence for binary64; the placement of an image is
    proved for binary64, from the specification of its operations. *)

From Stdlib Require Import ZArith NArith QArith Qpower Qabs List String Ascii Bool Lia Lqa.
From Stdlib Require Import Permutation Sorted DecimalString DecimalN.
From Stdlib Require Import Floats.
Import ListNotations.

Open Scope string_scope.
Open Scope Z_scope.

(* ===================================================================== *)
(** * Python results: a value or a raised exception                       *)
(* ===================================================================== *)

(** A raised exception: its class name and its message. *)
Record exn := mk_exn { exn_class : string; exn_msg : string }.

Inductive result (A : Type) : Type :=
| Ok (a : A)
| Raise (e : exn).
Arguments Ok {A} a.
Arguments Raise {A} e.

Definition is_ok {A} (r : result A) : bool :=
  match r with Ok _ => true | Raise _ => false end.

Definition rbind {A B} (r : result A) (k : A -> result B) : result B :=
  match r with Ok a => k a | Raise e => Raise e end.

(** [float / 0] and [float / 0.0] in CPython. *)
Definition ZeroDivisionError : exn :=
  mk_exn "ZeroDivisionError" "float division by zero".

(** Raised by Pillow's encoders when asked to write an image with an empty
    extent: by [_setimage] in encode.c up to Pillow 11.3, by
    [Image.save] itself since. *)
Definition SystemError_tile : exn :=
  mk_exn "SystemError" "tile cannot extend outside image".

Definition ValueError_empty : exn :=
  mk_exn "ValueError" "cannot write empty image".

(* ===================================================================== *)
(** * Python floats                                                       *)
(* ===================================================================== *)

(** The float operations the program uses.  [fdiv] is the total division of
    the carrier; Python's check of the divisor is [truediv_int] below. *)
Class PyFloat (R : Type) : Type := {
  of_int : Z -> R;
  fadd : R -> R -> R;
  fsub : R -> R -> R;
  fmul : R -> R -> R;
  fdiv : R -> R -> R;
  flt : R -> R -> bool
}.

Declare Scope py_scope.
Delimit Scope py_scope with py.
Notation "a + b" := (fadd a b) : py_scope.
Notation "a - b" := (fsub a b) : py_scope.
Notation "a * b" := (fmul a b) : py_scope.

(** A decimal literal [n/d] with [d] a power of ten, such as [1.4 = lit 14 10].
    In binary64 the correctly rounded quotient of two exactly representable
    integers is the double nearest to the decimal, which is what the Python
    parser produces for the literal. *)
Definition lit {R} `{PyFloat R} (n d : Z) : R := fdiv (of_int n) (of_int d).

(** [a / n] for a float [a] and an int [n]. *)
Definition truediv_int {R} `{PyFloat R} (a : R) (n : Z) : result R :=
  if n =? 0 then Raise ZeroDivisionError else Ok (fdiv a (of_int n)).

(** [n * a] for an int [n] and a float [a]. *)
Definition mul_int {R} `{PyFloat R} (n : Z) (a : R) : R := fmul (of_int n) a.

(** The builtin [min(a, b)]: the first argument unless the second is
    strictly smaller. *)
Definition py_min {R} `{PyFloat R} (a b : R) : R := if flt b a then b else a.

(** ** Exact rationals *)

Definition Qltb (a b : Q) : bool := negb (Qle_bool b a).

#[export] Instance Q_float : PyFloat Q := {
  of_int := inject_Z;
  fadd := Qplus;
  fsub := Qminus;
  fmul := Qmult;
  fdiv := Qdiv;
  flt := Qltb
}.

(** ** IEEE binary64 *)

(** Conversion of a Python int to a float: the double nearest to the
    integer, ties to even, which is what CPython computes.  (An integer
    beyond the range of doubles becomes an infinity here, where CPython
    raises [OverflowError]; the program converts image dimensions and
    small literals only.) *)
Definition float_of_Z (z : Z) : float :=
  SF2Prim (binary_normalize prec emax z 0 false).

#[export] Instance binary64 : PyFloat float := {
  of_int := float_of_Z;
  fadd := PrimFloat.add;
  fsub := PrimFloat.sub;
  fmul := PrimFloat.mul;
  fdiv := PrimFloat.div;
  flt := PrimFloat.ltb
}.

(* ===================================================================== *)
(** * Python string formatting                                            *)
(* ===================================================================== *)

(** [str(n)] for a non-negative int. *)
Definition str_of_N (n : N) : string := NilZero.string_of_uint (N.to_uint n).

Fixpoint zeros (k : nat) : string :=
  match k with O => "" | S k' => String "0" (zeros k') end.

(** The format spec [0wd] on a non-negative int: pad with zeros on the left
    up to width [w]; longer numbers are not truncated. *)
Definition format_0d (w : nat) (n : N) : string :=
  let s := str_of_N n in zeros (w - String.length s) ++ s.

(** [datetime.date]. *)
Record date := mk_date { year : N; month : N; day : N }.

(** [date.isoformat()]: [YYYY-MM-DD]. *)
Definition isoformat (d : date) : string :=
  format_0d 4 (year d) ++ "-" ++ format_0d 2 (month d) ++ "-" ++ format_0d 2 (day d).

(* ===================================================================== *)
(** * Pillow images                                                       *)
(* ===================================================================== *)

(** The 8-bit greyscale and true-colour modes, with and without alpha. *)
Inductive mode := L | LA | RGB | RGBA.

Definition mode_eqb (m1 m2 : mode) : bool :=
  match m1, m2 with
  | L, L | LA, LA | RGB, RGB | RGBA, RGBA => true
  | _, _ => false
  end.

Definition rgb : Type := Z * Z * Z.
Definition rgba : Type := Z * Z * Z * Z.

(** The pixels of an image, row by row; the constructor is the mode. *)
Inductive raster :=
| Px_L (d : list Z)
| Px_LA (d : list (Z * Z))
| Px_RGB (d : list rgb)
| Px_RGBA (d : list rgba).

(** [Image.Image]: [size] is (width, height). *)
Record Image := mk_Image { size : N * N; pixels : raster }.

Definition img_mode (img : Image) : mode :=
  match pixels img with
  | Px_L _ => L
  | Px_LA _ => LA
  | Px_RGB _ => RGB
  | Px_RGBA _ => RGBA
  end.

Definition width (img : Image) : N := fst (size img).
Definition height (img : Image) : N := snd (size img).


(** [img.convert("RGB")]: grey is replicated, an alpha band is dropped. *)
Definition convert_RGB (img : Image) : Image :=
  mk_Image (size img)
    (Px_RGB
       match pixels img with
       | Px_L d => map (fun l => (l, l, l)) d
       | Px_LA d => map (fun '(l, _) => (l, l, l)) d
       | Px_RGB d => d
       | Px_RGBA d => map (fun '(r, g, b, _) => (r, g, b)) d
       end).

(** What [.convert("RGBA")] returns: an image of mode RGBA, given by its
    size and its pixels.  The conversion itself (palettes, bilevel and CMYK
    data, the transparent colour of a PNG) is Pillow's and is a parameter of
    the reader below. *)
Record rgba_image := mk_rgba { rgba_size : N * N; rgba_data : list rgba }.

Definition Image_of_rgba (c : rgba_image) : Image :=
  mk_Image (rgba_size c) (Px_RGBA (rgba_data c)).

(** [Image.new("RGB", size, color)]. *)
Definition Image_new_RGB (sz : N * N) (color : rgb) : list rgb :=
  repeat color (N.to_nat (fst sz * snd sz)).

(** [img.split()[3]] of an RGBA image: its alpha band. *)
Definition split_alpha (d : list rgba) : list Z :=
  map (fun '(_, _, _, a) => a) d.

(** Pillow's rounding division by 255 ([DIV255]) and its per-band blend
    ([BLEND8]): [dst] weighted by [255 - mask] plus [src] weighted by
    [mask]. *)
Definition DIV255 (a : Z) : Z :=
  let tmp := a + 128 in Z.shiftr (Z.shiftr tmp 8 + tmp) 8.

Definition BLEND8 (mask dst src : Z) : Z :=
  DIV255 (dst * (255 - mask) + src * mask).

Definition blend_px (mask : Z) (dst : rgb) (src : rgba) : rgb :=
  let '(r0, g0, b0) := dst in
  let '(r1, g1, b1, _) := src in
  (BLEND8 mask r0 r1, BLEND8 mask g0 g1, BLEND8 mask b0 b1).

(** [bg.paste(img, mask=m)] for an RGB [bg], an RGBA [img] and an L mask of
    one size, pasted at the origin: every pixel is blended through the
    mask. *)
Fixpoint paste (bg : list rgb) (src : list rgba) (mask : list Z) : list rgb :=
  match bg, src, mask with
  | p :: bg', s :: src', m :: mask' => blend_px m p s :: paste bg' src' mask'
  | _, _, _ => []
  end.

(** [reportlab.lib.utils.ImageReader] over a PNG buffer.  PNG is lossless,
    so the reader is represented by the image that was saved. *)
Record ImageReader := mk_reader { reader_image : Image }.

Definition white : rgb := (255, 255, 255).

(** What the PNG encoder of the installed Pillow does with an image of
    empty extent: whether it writes it, and the exception it raises when it
    does not.  The exception depends on the version of Pillow. *)
Record png_encoder := mk_encoder {
  accepts_empty : bool;
  empty_error : exn
}.

(** Pillow up to 11.3, and Pillow since. *)
Definition pillow_11 : png_encoder := mk_encoder false SystemError_tile.
Definition pillow_12 : png_encoder := mk_encoder false ValueError_empty.

(** An encoder that would write an empty image, for comparison. *)
Definition lenient : png_encoder := mk_encoder true ValueError_empty.

Section Pillow.

Variable encoder : png_encoder.

Definition is_empty (img : Image) : bool :=
  ((width img =? 0) || (height img =? 0))%N.

(** [img.save(buf, format="PNG")] followed by [ImageReader(buf)]. *)
Definition save_png (img : Image) : result ImageReader :=
  if is_empty img && negb (accepts_empty encoder)
  then Raise (empty_error encoder)
  else Ok (mk_reader img).

Definition img_to_reader (img : Image) : result ImageReader :=
  let img' :=
    match pixels img with
    | Px_RGBA d =>
        let bg := Image_new_RGB (size img) white in
        mk_Image (size img) (Px_RGB (paste bg d (split_alpha d)))
    | _ => convert_RGB img
    end in
  save_png img'.

End Pillow.

(** The image that [img_to_reader] hands to the encoder. *)
Definition flattened (img : Image) : Image :=
  match pixels img with
  | Px_RGBA d =>
      mk_Image (size img)
        (Px_RGB (paste (Image_new_RGB (size img) white) d (split_alpha d)))
  | _ => convert_RGB img
  end.

(* ===================================================================== *)
(** * ReportLab canvas                                                    *)
(* ===================================================================== *)

Section Canvas.

Context {R : Type} {FR : PyFloat R}.

(** The drawing operations the program emits into a page. *)
Inductive op :=
| SetFont (name : string) (sz : Z)
| DrawString (x y : R) (text : string)
| DrawImage (r : ImageReader) (x y w h : R) (mask : string)
| Line (x1 y1 x2 y2 : R).

Definition page := list op.

(** What [Canvas.save] serialises: the metadata title and the pages. *)
Record Document := mk_Document {
  doc_title : option string;
  doc_pages : list page
}.

(** [canvas.Canvas]: the title set so far, the finished pages, and the
    operations of the page being composed. *)
Record Canvas := mk_Canvas {
  c_title : option string;
  c_pages : list page;
  c_code : list op
}.

(** [canvas.Canvas(buf, pagesize=letter)]. *)
Definition new_canvas : Canvas := mk_Canvas None [] [].

(** Statements that act on the canvas and may raise. *)
Definition M (A : Type) : Type := Canvas -> result (A * Canvas).

Definition ret {A} (a : A) : M A := fun c => Ok (a, c).

Definition bind {A B} (m : M A) (k : A -> M B) : M B :=
  fun c => match m c with
           | Ok (a, c') => k a c'
           | Raise e => Raise e
           end.

(** A call that may raise and does not touch the canvas. *)
Definition lift {A} (r : result A) : M A :=
  fun c => match r with Ok a => Ok (a, c) | Raise e => Raise e end.

Definition emit (o : op) : M unit :=
  fun c => Ok (tt, mk_Canvas (c_title c) (c_pages c) (c_code c ++ [o])).

Definition setTitle (t : string) : M unit :=
  fun c => Ok (tt, mk_Canvas (Some t) (c_pages c) (c_code c)).

Definition setFont (name : string) (sz : Z) : M unit := emit (SetFont name sz).

Definition drawString (x y : R) (text : string) : M unit :=
  emit (DrawString x y text).

Definition drawImage (r : ImageReader) (x y w h : R) (mask : string) : M unit :=
  emit (DrawImage r x y w h mask).

Definition line (x1 y1 x2 y2 : R) : M unit := emit (Line x1 y1 x2 y2).

(** [showPage]: close the current page and start an empty one. *)
Definition showPage : M unit :=
  fun c => Ok (tt, mk_Canvas (c_title c) (c_pages c ++ [c_code c]) []).

(** [save]: a page with pending operations is closed first, then the
    document is written. *)
Definition save : M Document :=
  fun c =>
    let pages :=
      match c_code c with
      | [] => c_pages c
      | _ :: _ => (c_pages c ++ [c_code c])%list
      end in
    Ok (mk_Document (c_title c) pages, mk_Canvas (c_title c) pages []).

(** A [for] loop over a list. *)
Fixpoint for_each {A} (body : A -> M unit) (l : list A) : M unit :=
  match l with
  | [] => ret tt
  | a :: l' => bind (body a) (fun _ => for_each body l')
  end.

(** [enumerate(l, start)]. *)
Fixpoint enumerate {A} (start : N) (l : list A) : list (N * A) :=
  match l with
  | [] => []
  | a :: l' => (start, a) :: enumerate (N.succ start) l'
  end.

End Canvas.

Arguments op R : clear implicits.
Arguments Document R : clear implicits.
Arguments Canvas R : clear implicits.
Arguments M R A : clear implicits.

Notation "x <- m ;; k" := (bind m (fun x => k))
  (at level 61, m at next level, right associativity) : py_scope.
Notation "m ;; k" := (bind m (fun _ => k))
  (at level 61, right associativity) : py_scope.

(* ===================================================================== *)
(** * The catalog renderer                                                *)
(* ===================================================================== *)

Section Renderer.

Context {R : Type} {FR : PyFloat R}.
Variable encoder : png_encoder.

(** [reportlab.lib.units.inch] and [reportlab.lib.pagesizes.letter]. *)
Definition inch : R := of_int 72.
Definition letter : R * R := ((lit 85 10 * inch)%py, mul_int 11 inch).
Definition W : R := fst letter.
Definition H : R := snd letter.

(** The content box of an entry page. *)
Definition margin_x : R := (lit 10 10 * inch)%py.
Definition box_w : R := (W - mul_int 2 margin_x)%py.
Definition box_h : R := (H - lit 30 10 * inch)%py.

(** The placement of an image of size [iw] x [ih]:
    [(x, y, draw_w, draw_h)]. *)
Definition fit (iw ih : N) : result (R * R * R * R) :=
  rbind (truediv_int box_w (Z.of_N iw)) (fun sw =>
  rbind (truediv_int box_h (Z.of_N ih)) (fun sh =>
  let scale := py_min sw sh in
  let draw_w := mul_int (Z.of_N iw) scale in
  let draw_h := mul_int (Z.of_N ih) scale in
  rbind (truediv_int (box_w - draw_w)%py 2) (fun dx =>
  rbind (truediv_int (box_h - draw_h)%py 2) (fun dy =>
  let x := (margin_x + dx)%py in
  let y := (lit 12 10 * inch + dy)%py in
  Ok (x, y, draw_w, draw_h))))).

(** The rectangle that [fit] returns when no division raises. *)
Definition fit_rect (iw ih : N) : R * R * R * R :=
  let scale := py_min (fdiv box_w (of_int (Z.of_N iw)))
                      (fdiv box_h (of_int (Z.of_N ih))) in
  let draw_w := mul_int (Z.of_N iw) scale in
  let draw_h := mul_int (Z.of_N ih) scale in
  ((margin_x + fdiv (box_w - draw_w) (of_int 2))%py,
   (lit 12 10 * inch + fdiv (box_h - draw_h) (of_int 2))%py,
   draw_w, draw_h).

(** The logo of a page, drawn in a box of [lw] x [lh] inches. *)
Definition draw_logo (logo_img : option Image) (lw lh : R) : M R unit :=
  match logo_img with
  | Some logo =>
      (lr <- lift (img_to_reader encoder logo) ;;
       let logo_w := lw * inch in
       let logo_h := lh * inch in
       drawImage lr (W - logo_w - lit 8 10 * inch) (H - logo_h - lit 9 10 * inch)
                 logo_w logo_h "auto")%py
  | None => ret tt
  end.

Definition cover_page (today : date) (logo_img : option Image)
  (title subtitle footer : string) : M R unit :=
  (setTitle title ;;
   setFont "Helvetica-Bold" 26 ;;
   drawString (lit 10 10 * inch) (H - lit 14 10 * inch) title ;;
   setFont "Helvetica" 14 ;;
   drawString (lit 10 10 * inch) (H - lit 18 10 * inch) subtitle ;;
   setFont "Helvetica" 11 ;;
   drawString (lit 10 10 * inch) (H - lit 22 10 * inch)
              ("Generated: " ++ isoformat today) ;;
   draw_logo logo_img (lit 16 10) (lit 10 10) ;;
   line (lit 10 10 * inch) (H - lit 25 10 * inch)
        (W - lit 10 10 * inch) (H - lit 25 10 * inch) ;;
   setFont "Helvetica" 10 ;;
   drawString (lit 10 10 * inch) (lit 8 10 * inch) footer ;;
   showPage)%py.

Definition entry_page (logo_img : option Image) (footer : string)
  (e : N * (string * Image)) : M R unit :=
  let '(idx, (name, img)) := e in
  (setFont "Helvetica-Bold" 18 ;;
   drawString (lit 10 10 * inch) (H - lit 10 10 * inch)
              ("Design " ++ format_0d 2 idx) ;;
   setFont "Helvetica" 10 ;;
   drawString (lit 10 10 * inch) (H - lit 125 100 * inch) ("Source: " ++ name) ;;
   draw_logo logo_img (lit 12 10) (lit 75 100) ;;
   ir <- lift (img_to_reader encoder img) ;;
   p <- lift (fit (width img) (height img)) ;;
   let '(x, y, draw_w, draw_h) := p in
   drawImage ir x y draw_w draw_h "auto" ;;
   setFont "Helvetica" 10 ;;
   drawString (lit 10 10 * inch) (lit 8 10 * inch) footer ;;
   showPage)%py.

(** [build_catalog_pdf]; [today] is the value of [date.today()]. *)
Definition build_catalog_pdf (today : date) (logo_img : option Image)
  (images : list (string * Image)) (title subtitle footer : string)
  : result (Document R) :=
  match
    (cover_page today logo_img title subtitle footer ;;
     for_each (entry_page logo_img footer) (enumerate 1 images) ;;
     save)%py new_canvas
  with
  | Ok (doc, _) => Ok doc
  | Raise e => Raise e
  end.

End Renderer.

(* ===================================================================== *)
(** * The archive reader                                                  *)
(* ===================================================================== *)

Definition bytes : Type := list Byte.byte.

(** An opened [zipfile.ZipFile]: its entries in archive order, each with
    its name and with what reading it yields, the uncompressed bytes or the
    exception that zipfile raises for an entry it cannot read (a checksum
    that does not match, an encrypted entry, a compression method it does
    not support).  Names may repeat. *)
Definition ZipFile : Type := list (string * result bytes).

(** [z.namelist()]. *)
Definition namelist (z : ZipFile) : list string := map fst z.

Definition KeyError (name : string) : exn :=
  mk_exn "KeyError" ("There is no item named '" ++ name ++ "' in the archive").

(** [z.read(name)]: the entry is looked up by name, and of several entries
    with one name the last one is found and read. *)
Definition zread (z : ZipFile) (name : string) : result bytes :=
  match find (fun e => fst e =? name)%string (rev z) with
  | Some e => snd e
  | None => Raise (KeyError name)
  end.

(** [str.lower()] on characters below U+0100: the letters A-Z and the
    Latin-1 capitals (all of U+00C0-U+00DE but the multiplication sign)
    move up by 32. *)
Definition lower_ascii (c : ascii) : ascii :=
  let n := nat_of_ascii c in
  if ((65 <=? n) && (n <=? 90) ||
      (192 <=? n) && (n <=? 222) && negb (n =? 215))%nat
  then ascii_of_nat (n + 32)
  else c.

Fixpoint lower (s : string) : string :=
  match s with
  | EmptyString => EmptyString
  | String c s' => String (lower_ascii c) (lower s')
  end.

(** [s.endswith(suffix)]. *)
Fixpoint endswith (s suffix : string) : bool :=
  (s =? suffix)%string ||
  match s with
  | EmptyString => false
  | String _ s' => endswith s' suffix
  end.

(** [s.endswith(tuple)]: any of the suffixes. *)
Definition endswith_any (s : string) (suffixes : list string) : bool :=
  existsb (endswith s) suffixes.

Definition image_suffixes : list string := [".png"; ".jpg"; ".jpeg"].

(** The test of line 20. *)
Definition is_image_name (name : string) : bool :=
  endswith_any (lower name) image_suffixes.

(** [sorted] on a list of strings: the order is the one of [str], by
    character code, a proper prefix first. *)
Fixpoint insert_sorted (x : string) (l : list string) : list string :=
  match l with
  | [] => [x]
  | y :: l' => if String.leb x y then x :: l else y :: insert_sorted x l'
  end.

Fixpoint sorted (l : list string) : list string :=
  match l with
  | [] => []
  | x :: l' => insert_sorted x (sorted l')
  end.

Section Archive.

(** [zipfile.ZipFile(io.BytesIO(zip_bytes), "r")]: the entries, or the
    exception raised for bytes that are not a zip archive. *)
Variable ZipFile_open : bytes -> result ZipFile.

(** [Image.open(io.BytesIO(data))]: the image as the decoder identifies
    it, in the mode of the file, or the exception raised for bytes in which
    no image format is recognised. *)
Context {Decoded : Type}.
Variable Image_open : bytes -> result Decoded.

(** [img.convert("RGBA")], with the load of the pixel data that it
    triggers: the RGBA image, or the exception raised for data that cannot
    be loaded or converted. *)
Variable convert_RGBA : Decoded -> result rgba_image.

(** The loop of [read_zip_images] over the names still to visit. *)
Fixpoint read_names (z : ZipFile) (names : list string)
  (out : list (string * Image)) : result (list (string * Image)) :=
  match names with
  | [] => Ok out
  | name :: rest =>
      if is_image_name name then
        rbind (zread z name) (fun data =>
        rbind (Image_open data) (fun opened =>
        rbind (convert_RGBA opened) (fun img =>
        read_names z rest (out ++ [(name, Image_of_rgba img)])%list)))
      else read_names z rest out
  end.

Definition read_zip_images (zip_bytes : bytes) : result (list (string * Image)) :=
  rbind (ZipFile_open zip_bytes) (fun z =>
  read_names z (sorted (namelist z)) []).

End Archive.

(* ===================================================================== *)
(** * The document that the renderer composes                             *)
(* ===================================================================== *)

(** A description of the output of [build_catalog_pdf] without the canvas:
    the pages as lists of operations.  [build_catalog_pdf_eq] below proves
    that the program computes exactly this. *)

Section Description.

Context {R : Type} {FR : PyFloat R}.
Variable encoder : png_encoder.

Fixpoint mapM_result {A B} (f : A -> result B) (l : list A) : result (list B) :=
  match l with
  | [] => Ok []
  | a :: l' =>
      rbind (f a) (fun b => rbind (mapM_result f l') (fun bs => Ok (b :: bs)))
  end.

(** The reader of the logo, when there is one. *)
Definition logo_reader (logo_img : option Image) : result (option ImageReader) :=
  match logo_img with
  | None => Ok None
  | Some logo =>
      rbind (img_to_reader encoder logo) (fun lr => Ok (Some lr))
  end.

(** The operations of the logo in a box of [lw] x [lh] inches. *)
Definition logo_ops (lr : option ImageReader) (lw lh : R) : list (op R) :=
  match lr with
  | Some r =>
      [DrawImage r (W - lw * inch - lit 8 10 * inch)%py
                 (H - lh * inch - lit 9 10 * inch)%py
                 (lw * inch)%py (lh * inch)%py "auto"]
  | None => []
  end.

Definition cover_ops (today : date) (lr : option ImageReader)
  (title subtitle footer : string) : list (op R) :=
  ([SetFont "Helvetica-Bold" 26;
    DrawString (lit 10 10 * inch)%py (H - lit 14 10 * inch)%py title;
    SetFont "Helvetica" 14;
    DrawString (lit 10 10 * inch)%py (H - lit 18 10 * inch)%py subtitle;
    SetFont "Helvetica" 11;
    DrawString (lit 10 10 * inch)%py (H - lit 22 10 * inch)%py
               ("Generated: " ++ isoformat today)]
   ++ logo_ops lr (lit 16 10) (lit 10 10)
   ++ [Line (lit 10 10 * inch)%py (H - lit 25 10 * inch)%py
            (W - lit 10 10 * inch)%py (H - lit 25 10 * inch)%py;
       SetFont "Helvetica" 10;
       DrawString (lit 10 10 * inch)%py (lit 8 10 * inch)%py footer])%list.

Definition entry_ops (lr : option ImageReader) (footer : string) (idx : N)
  (name : string) (ir : ImageReader) (p : R * R * R * R) : list (op R) :=
  let '(x, y, draw_w, draw_h) := p in
  ([SetFont "Helvetica-Bold" 18;
    DrawString (lit 10 10 * inch)%py (H - lit 10 10 * inch)%py
               ("Design " ++ format_0d 2 idx);
    SetFont "Helvetica" 10;
    DrawString (lit 10 10 * inch)%py (H - lit 125 100 * inch)%py
               ("Source: " ++ name)]
   ++ logo_ops lr (lit 12 10) (lit 75 100)
   ++ [DrawImage ir x y draw_w draw_h "auto";
       SetFont "Helvetica" 10;
       DrawString (lit 10 10 * inch)%py (lit 8 10 * inch)%py footer])%list.

(** The page of one entry, or the exception its image raises. *)
Definition entry_render (lr : option ImageReader) (footer : string)
  (e : N * (string * Image)) : result (list (op R)) :=
  let '(idx, (name, img)) := e in
  rbind (img_to_reader encoder img) (fun ir =>
  rbind (fit (width img) (height img)) (fun p =>
  Ok (entry_ops lr footer idx name ir p))).

Definition catalog_document (today : date) (logo_img : option Image)
  (images : list (string * Image)) (title subtitle footer : string)
  : result (Document R) :=
  rbind (logo_reader logo_img) (fun lr =>
  rbind (mapM_result (entry_render lr footer) (enumerate 1 images)) (fun pages =>
  Ok (mk_Document (Some title) (cover_ops today lr title subtitle footer :: pages)))).

(** The inputs on which rendering returns a document: the logo can be
    encoded and no entry image is empty. *)
Definition renderable (logo_img : option Image)
  (images : list (string * Image)) : bool :=
  match logo_img with
  | None => true
  | Some logo => negb (is_empty logo) || accepts_empty encoder
  end &&
  forallb (fun e : string * Image => negb (is_empty (snd e))) images.

(** The text operations of a page: fonts and strings, in order. *)
Definition is_text_op (o : op R) : bool :=
  match o with
  | SetFont _ _ | DrawString _ _ _ => true
  | DrawImage _ _ _ _ _ _ | Line _ _ _ _ => false
  end.

Definition text_ops (p : list (op R)) : list (op R) := filter is_text_op p.

(** [p1] is [p0] with one more operation, a drawing of the image [r]. *)
Definition adds_logo (r : ImageReader) (p1 p0 : list (op R)) : Prop :=
  exists pre post x y w h,
    p1 = (pre ++ DrawImage r x y w h "auto" :: post)%list /\
    p0 = (pre ++ post)%list.

End Description.

(* ===================================================================== *)
(** * Facts about results                                                 *)
(* ===================================================================== *)

Lemma rbind_ok_inv {A B} (r : result A) (k : A -> result B) (b : B) :
  rbind r k = Ok b -> exists a, r = Ok a /\ k a = Ok b.
Proof.
  destruct r as [a|e]; simpl; intros E; [eauto | discriminate].
Qed.

Lemma rbind_raise_inv {A B} (r : result A) (k : A -> result B) (e : exn) :
  rbind r k = Raise e -> r = Raise e \/ exists a, r = Ok a /\ k a = Raise e.
Proof.
  destruct r as [a|e']; simpl; intros E; [right; eauto | left; congruence].
Qed.

Lemma is_ok_true {A} (r : result A) : is_ok r = true <-> exists a, r = Ok a.
Proof.
  destruct r as [a|e]; simpl; split; intros E; eauto; try discriminate.
  destruct E as [a E]; discriminate.
Qed.

(* ===================================================================== *)
(** * The renderer computes the described document                        *)
(* ===================================================================== *)

Section RendererFacts.

Context {R : Type} {FR : PyFloat R}.
Variable acc : png_encoder.

Lemma cover_page_run today logo title subtitle footer :
  cover_page acc today logo title subtitle footer (new_canvas (R:=R)) =
  match logo_reader acc logo with
  | Ok lr =>
      Ok (tt, mk_Canvas (Some title)
                [cover_ops today lr title subtitle footer] [])
  | Raise e => Raise e
  end.
Proof.
  unfold cover_page, logo_reader, draw_logo.
  destruct logo as [logo|]; simpl.
  - unfold bind at 8. unfold lift.
    destruct (img_to_reader acc logo) as [lr|e]; reflexivity.
  - reflexivity.
Qed.

Lemma entry_page_run logo lr footer e (c : Canvas R) :
  logo_reader acc logo = Ok lr ->
  c_code c = [] ->
  entry_page acc logo footer e c =
  match entry_render acc lr footer e with
  | Ok p => Ok (tt, mk_Canvas (c_title c) (c_pages c ++ [p]) [])
  | Raise x => Raise x
  end.
Proof.
  intros Hlogo Hcode.
  destruct e as [idx [name img]], c as [ct cp cc]; simpl in Hcode; subst cc.
  unfold entry_page, entry_render, draw_logo, logo_reader in *.
  destruct logo as [logo|].
  - destruct (img_to_reader acc logo) as [r|x]; [|discriminate].
    injection Hlogo as <-.
    cbv beta iota delta [bind lift setFont drawString drawImage emit showPage
                         c_title c_pages c_code app rbind].
    destruct (img_to_reader acc img) as [ir|x]; [|reflexivity].
    destruct (fit (width img) (height img)) as [[[[x y] w] h]|x]; reflexivity.
  - injection Hlogo as <-.
    cbv beta iota delta [bind lift setFont drawString drawImage emit showPage
                         c_title c_pages c_code app rbind ret].
    destruct (img_to_reader acc img) as [ir|x]; [|reflexivity].
    destruct (fit (width img) (height img)) as [[[[x y] w] h]|x]; reflexivity.
Qed.

Lemma for_each_entries_run logo lr footer :
  logo_reader acc logo = Ok lr ->
  forall (l : list (N * (string * Image))) (c : Canvas R),
    c_code c = [] ->
    for_each (entry_page acc logo footer) l c =
    match mapM_result (entry_render acc lr footer) l with
    | Ok ps => Ok (tt, mk_Canvas (c_title c) (c_pages c ++ ps) [])
    | Raise x => Raise x
    end.
Proof.
  intros Hlogo l.
  induction l as [|e l IH]; intros c Hcode.
  - simpl. unfold ret. rewrite app_nil_r.
    destruct c as [ct cp cc]; simpl in *; subst; reflexivity.
  - simpl. unfold bind at 1.
    rewrite (entry_page_run logo lr footer e c Hlogo Hcode).
    destruct (entry_render acc lr footer e) as [p|x]; simpl; [|reflexivity].
    rewrite IH by reflexivity. simpl.
    destruct (mapM_result (entry_render acc lr footer) l) as [ps|x]; simpl;
      [|reflexivity].
    rewrite <- app_assoc. reflexivity.
Qed.

(** The program and the description agree on every input, on the document
    and on the exception. *)
Lemma build_catalog_pdf_eq today logo images title subtitle footer :
  build_catalog_pdf (R:=R) acc today logo images title subtitle footer =
  catalog_document acc today logo images title subtitle footer.
Proof.
  unfold build_catalog_pdf, catalog_document.
  unfold bind at 1. rewrite cover_page_run.
  destruct (logo_reader acc logo) as [lr|x] eqn:Hlogo; simpl; [|reflexivity].
  unfold bind at 1.
  rewrite (for_each_entries_run logo lr footer Hlogo) by reflexivity.
  destruct (mapM_result (entry_render acc lr footer) (enumerate 1 images))
    as [ps|x]; reflexivity.
Qed.

End RendererFacts.

(* ===================================================================== *)
(** * Loops over lists                                                    *)
(* ===================================================================== *)

Section Loops.

Context {A B : Type}.
Variable f : A -> result B.

Lemma mapM_result_length l bs :
  mapM_result f l = Ok bs -> List.length bs = List.length l.
Proof.
  revert bs; induction l as [|a l IH]; simpl; intros bs E.
  - injection E as <-. reflexivity.
  - apply rbind_ok_inv in E. destruct E as (b & _ & E).
    apply rbind_ok_inv in E. destruct E as (bs' & E' & E).
    injection E as <-. simpl. f_equal. auto.
Qed.

Lemma mapM_result_nth l bs :
  mapM_result f l = Ok bs ->
  forall i a, nth_error l i = Some a ->
              exists b, nth_error bs i = Some b /\ f a = Ok b.
Proof.
  revert bs; induction l as [|a0 l IH]; simpl; intros bs E i a Hi.
  - destruct i; discriminate.
  - apply rbind_ok_inv in E. destruct E as (b & Eb & E).
    apply rbind_ok_inv in E. destruct E as (bs' & E' & E).
    injection E as <-.
    destruct i as [|i]; simpl in *.
    + injection Hi as <-. eauto.
    + eauto.
Qed.

Lemma mapM_result_is_ok l :
  is_ok (mapM_result f l) = forallb (fun a => is_ok (f a)) l.
Proof.
  induction l as [|a l IH]; simpl; [reflexivity|].
  destruct (f a) as [b|e]; simpl; [|reflexivity].
  rewrite <- IH. destruct (mapM_result f l); reflexivity.
Qed.

Lemma mapM_result_raise l e :
  mapM_result f l = Raise e -> exists a, In a l /\ f a = Raise e.
Proof.
  induction l as [|a l IH]; simpl; intros E; [discriminate|].
  destruct (f a) as [b|e'] eqn:Ea; simpl in E.
  - destruct (mapM_result f l) as [bs|e'']; simpl in E; [discriminate|].
    destruct (IH E) as (a' & Hin & Ha'). eauto.
  - injection E as <-. eauto.
Qed.

Lemma mapM_result_Forall (P : B -> Prop) l bs :
  (forall a b, In a l -> f a = Ok b -> P b) ->
  mapM_result f l = Ok bs -> Forall P bs.
Proof.
  revert bs; induction l as [|a l IH]; simpl; intros bs HP E.
  - injection E as <-. constructor.
  - apply rbind_ok_inv in E. destruct E as (b & Eb & E).
    apply rbind_ok_inv in E. destruct E as (bs' & E' & E).
    injection E as <-. constructor; eauto.
Qed.

End Loops.

Lemma mapM_result_ext {A B} (f g : A -> result B) l :
  (forall a, In a l -> f a = g a) -> mapM_result f l = mapM_result g l.
Proof.
  induction l as [|a l IH]; simpl; intros E; [reflexivity|].
  rewrite (E a) by auto. rewrite IH by auto. reflexivity.
Qed.

Lemma enumerate_length {A} (l : list A) k :
  List.length (enumerate k l) = List.length l.
Proof.
  revert k; induction l as [|a l IH]; simpl; intros k; [reflexivity|].
  f_equal. apply IH.
Qed.

Lemma enumerate_nth {A} (l : list A) k i a :
  nth_error l i = Some a ->
  nth_error (enumerate k l) i = Some ((k + N.of_nat i)%N, a).
Proof.
  revert k i; induction l as [|a0 l IH]; intros k i Hi.
  - destruct i; discriminate.
  - destruct i as [|i]; simpl in *.
    + injection Hi as <-. rewrite N.add_0_r. reflexivity.
    + rewrite (IH (N.succ k) i Hi). do 2 f_equal. lia.
Qed.


(* ===================================================================== *)
(** * Decimal formatting                                                  *)
(* ===================================================================== *)

(** A number below ten prints as one digit, so [02d] puts one zero before
    it. *)
Lemma format_02d_small n :
  (n < 10)%N -> format_0d 2 n = String "0" (str_of_N n) /\
                String.length (str_of_N n) = 1%nat.
Proof.
  intros Hn.
  destruct n as [|p]; [split; reflexivity|].
  do 4 (try destruct p as [p|p|]);
    first [split; reflexivity | exfalso; lia].
Qed.

(** From ten on the number has two digits or more and is printed as it
    is. *)
Lemma format_02d_large n :
  (10 <= n)%N -> format_0d 2 n = str_of_N n /\
                 (2 <= String.length (str_of_N n))%nat.
Proof.
  intros Hn.
  assert (Hlen : (2 <= String.length (str_of_N n))%nat).
  { pose proof (DecimalN.Unsigned.of_to n) as Hof.
    unfold str_of_N.
    destruct (N.to_uint n) as [|u|u|u|u|u|u|u|u|u|u] eqn:E;
      try (destruct u; [exfalso; simpl in Hof; cbv in Hof; lia | simpl; lia ..]).
    exfalso. cbv in Hof. lia. }
  split; [|exact Hlen].
  unfold format_0d.
  replace (2 - String.length (str_of_N n))%nat with 0%nat by lia.
  reflexivity.
Qed.

(* ===================================================================== *)
(** * Encoding and placing one image                                      *)
(* ===================================================================== *)

Lemma img_to_reader_eq acc img :
  img_to_reader acc img = save_png acc (flattened img).
Proof. unfold img_to_reader, flattened. destruct (pixels img); reflexivity. Qed.

Lemma flattened_size img : size (flattened img) = size img.
Proof. unfold flattened, convert_RGB. destruct (pixels img); reflexivity. Qed.

Lemma flattened_is_empty img : is_empty (flattened img) = is_empty img.
Proof. unfold is_empty, width, height. rewrite flattened_size. reflexivity. Qed.

Lemma img_to_reader_cases acc img :
  img_to_reader acc img =
  if is_empty img && negb (accepts_empty acc) then Raise (empty_error acc)
  else Ok (mk_reader (flattened img)).
Proof.
  rewrite img_to_reader_eq. unfold save_png.
  rewrite flattened_is_empty. reflexivity.
Qed.

Lemma img_to_reader_nonempty acc img :
  is_empty img = false -> img_to_reader acc img = Ok (mk_reader (flattened img)).
Proof. intros E. rewrite img_to_reader_cases, E. reflexivity. Qed.

Section Placement.

Context {R : Type} {FR : PyFloat R}.

Lemma fit_cases (iw ih : N) :
  fit (R:=R) iw ih =
  if ((iw =? 0) || (ih =? 0))%N then Raise ZeroDivisionError
  else Ok (fit_rect iw ih).
Proof.
  unfold fit, fit_rect, truediv_int.
  destruct iw as [|pw]; [reflexivity|].
  destruct ih as [|ph]; reflexivity.
Qed.

Lemma fit_nonempty img :
  is_empty img = false ->
  fit (R:=R) (width img) (height img) = Ok (fit_rect (width img) (height img)).
Proof. intros E. rewrite fit_cases. unfold is_empty in E. rewrite E. reflexivity. Qed.

Lemma fit_empty img :
  is_empty img = true ->
  fit (R:=R) (width img) (height img) = Raise ZeroDivisionError.
Proof. intros E. rewrite fit_cases. unfold is_empty in E. rewrite E. reflexivity. Qed.

Variable acc : png_encoder.

(** The exception that an empty image raises in a call of the renderer:
    the encoder's, unless this encoder lets empty images through and the
    division is reached. *)
Definition empty_image_error : exn :=
  if accepts_empty acc then ZeroDivisionError else empty_error acc.

Lemma entry_render_nonempty lr footer idx name img :
  is_empty img = false ->
  entry_render (R:=R) acc lr footer (idx, (name, img)) =
  Ok (entry_ops lr footer idx name (mk_reader (flattened img))
                (fit_rect (width img) (height img))).
Proof.
  intros E. unfold entry_render.
  rewrite (img_to_reader_nonempty acc img E). simpl.
  rewrite (fit_nonempty img E). reflexivity.
Qed.

Lemma entry_render_empty lr footer idx name img :
  is_empty img = true ->
  entry_render (R:=R) acc lr footer (idx, (name, img)) = Raise empty_image_error.
Proof.
  intros E. unfold entry_render, empty_image_error.
  rewrite img_to_reader_cases, E.
  destruct (accepts_empty acc); simpl; [|reflexivity].
  rewrite (fit_empty img E). reflexivity.
Qed.

Lemma entry_render_is_ok lr footer e :
  is_ok (entry_render (R:=R) acc lr footer e) = negb (is_empty (snd (snd e))).
Proof.
  destruct e as [idx [name img]]; simpl snd.
  destruct (is_empty img) eqn:E.
  - rewrite (entry_render_empty lr footer idx name img E). reflexivity.
  - rewrite (entry_render_nonempty lr footer idx name img E). reflexivity.
Qed.

Lemma logo_reader_is_ok logo :
  is_ok (logo_reader acc logo) =
  match logo with
  | None => true
  | Some l => negb (is_empty l) || accepts_empty acc
  end.
Proof.
  destruct logo as [l|]; [|reflexivity].
  unfold logo_reader. rewrite img_to_reader_cases.
  destruct (is_empty l), (accepts_empty acc); reflexivity.
Qed.

Lemma logo_reader_raise logo e :
  logo_reader acc logo = Raise e ->
  e = empty_image_error /\ accepts_empty acc = false.
Proof.
  destruct logo as [l|]; [|discriminate].
  unfold logo_reader, empty_image_error. rewrite img_to_reader_cases.
  destruct (is_empty l), (accepts_empty acc); simpl; intros E;
    try discriminate.
  injection E as <-. split; reflexivity.
Qed.

Lemma entries_render_is_ok lr footer images k :
  is_ok (mapM_result (entry_render (R:=R) acc lr footer) (enumerate k images)) =
  forallb (fun e : string * Image => negb (is_empty (snd e))) images.
Proof.
  rewrite mapM_result_is_ok.
  revert k; induction images as [|[n i] l IH]; intros k;
    cbn [forallb enumerate]; [reflexivity|].
  rewrite entry_render_is_ok. cbn [snd]. f_equal. apply IH.
Qed.

(** Rendering returns a document exactly on the renderable inputs, whatever
    the date and the text. *)
Lemma build_catalog_pdf_is_ok today logo images title subtitle footer :
  is_ok (build_catalog_pdf (R:=R) acc today logo images title subtitle footer) =
  renderable acc logo images.
Proof.
  rewrite build_catalog_pdf_eq. unfold catalog_document, renderable.
  rewrite <- logo_reader_is_ok.
  destruct (logo_reader acc logo) as [lr|e]; simpl; [|reflexivity].
  rewrite <- (entries_render_is_ok lr footer images 1).
  destruct (mapM_result (entry_render acc lr footer) (enumerate 1 images));
    reflexivity.
Qed.

End Placement.

(* ===================================================================== *)
(** * The pages of the catalog                                            *)
(* ===================================================================== *)

Section Pages.

Context {R : Type} {FR : PyFloat R}.
Variable acc : png_encoder.

Lemma catalog_document_ok_inv today logo images title subtitle footer
  (doc : Document R) :
  catalog_document acc today logo images title subtitle footer = Ok doc ->
  exists lr ps,
    logo_reader acc logo = Ok lr /\
    mapM_result (entry_render acc lr footer) (enumerate 1 images) = Ok ps /\
    doc = mk_Document (Some title)
                      (cover_ops today lr title subtitle footer :: ps).
Proof.
  unfold catalog_document. intros E.
  apply rbind_ok_inv in E. destruct E as (lr & Hlr & E).
  apply rbind_ok_inv in E. destruct E as (ps & Hps & E).
  injection E as <-. eauto.
Qed.

Lemma entry_page_of_document lr footer images (ps : list (list (op R))) :
  mapM_result (entry_render acc lr footer) (enumerate 1 images) = Ok ps ->
  forall i name img,
    nth_error images i = Some (name, img) ->
    is_empty img = false /\
    nth_error ps i =
    Some (entry_ops lr footer (N.of_nat (S i)) name (mk_reader (flattened img))
                    (fit_rect (width img) (height img))).
Proof.
  intros Hps i name img Hi.
  pose proof (enumerate_nth images 1 i _ Hi) as He.
  destruct (mapM_result_nth _ _ _ Hps _ _ He) as (p & Hp & Hr).
  assert (Hne : is_empty img = false).
  { pose proof (entry_render_is_ok (R:=R) acc lr footer
                  ((1 + N.of_nat i)%N, (name, img))) as Hok.
    rewrite Hr in Hok. simpl in Hok.
    destruct (is_empty img); [discriminate | reflexivity]. }
  split; [exact Hne|].
  rewrite (entry_render_nonempty acc lr footer _ name img Hne) in Hr.
  replace (1 + N.of_nat i)%N with (N.of_nat (S i)) in Hr by lia.
  rewrite Hp. congruence.
Qed.

(** C1.  On every input that renders (a logo that can be encoded and K >= 0
    entries with non-empty images) the document has exactly K+1 pages: the
    cover first, then the page of the i-th entry at position i, in entry
    order.  The page of the i-th entry (1-based) carries the header
    "Design NN" at (1u, H-1.0u), NN being the index padded with a zero up
    to width 2, and the line "Source: <entry name>" at (1u, H-1.25u). *)
Theorem build_catalog_pdf_pages today logo images title subtitle footer :
  renderable acc logo images = true ->
  exists (doc : Document R) lr,
    build_catalog_pdf acc today logo images title subtitle footer = Ok doc /\
    List.length (doc_pages doc) = S (List.length images) /\
    nth_error (doc_pages doc) 0 =
      Some (cover_ops today lr title subtitle footer) /\
    forall i name img,
      nth_error images i = Some (name, img) ->
      exists p,
        nth_error (doc_pages doc) (S i) = Some p /\
        nth_error p 0 = Some (SetFont "Helvetica-Bold" 18) /\
        nth_error p 1 =
          Some (DrawString (lit 10 10 * inch)%py (H - lit 10 10 * inch)%py
                           ("Design " ++ format_0d 2 (N.of_nat (S i)))) /\
        nth_error p 3 =
          Some (DrawString (lit 10 10 * inch)%py (H - lit 125 100 * inch)%py
                           ("Source: " ++ name)) /\
        ((N.of_nat (S i) < 10)%N ->
         format_0d 2 (N.of_nat (S i)) = String "0" (str_of_N (N.of_nat (S i)))) /\
        ((10 <= N.of_nat (S i))%N ->
         format_0d 2 (N.of_nat (S i)) = str_of_N (N.of_nat (S i))).
Proof.
  intros Hr.
  rewrite <- (build_catalog_pdf_is_ok acc today logo images title subtitle footer)
    in Hr.
  apply is_ok_true in Hr. destruct Hr as (doc & Hdoc).
  pose proof Hdoc as Hd. rewrite build_catalog_pdf_eq in Hd.
  apply catalog_document_ok_inv in Hd.
  destruct Hd as (lr & ps & Hlr & Hps & ->).
  exists (mk_Document (Some title)
            (cover_ops today lr title subtitle footer :: ps)), lr.
  split; [exact Hdoc|]. simpl doc_pages.
  split.
  { cbn [List.length]. f_equal.
    rewrite <- (enumerate_length images 1).
    exact (mapM_result_length _ _ _ Hps). }
  split; [reflexivity|].
  intros i name img Hi.
  destruct (entry_page_of_document _ _ _ _ Hps _ _ _ Hi) as (_ & Hp).
  eexists. split; [exact Hp|].
  destruct (fit_rect (width img) (height img)) as [[[x y] w] h].
  repeat split; try reflexivity.
  - intros Hs. apply format_02d_small. exact Hs.
  - intros Hl. apply format_02d_large. exact Hl.
Qed.

(** C10.  Whenever rendering returns a document, its metadata title is the
    title argument, and the same title is the first string drawn on the
    cover, at (1u, H-1.4u). *)
Theorem build_catalog_pdf_title today logo images title subtitle footer
  (doc : Document R) :
  build_catalog_pdf acc today logo images title subtitle footer = Ok doc ->
  doc_title doc = Some title /\
  exists cover,
    nth_error (doc_pages doc) 0 = Some cover /\
    nth_error cover 1 =
      Some (DrawString (lit 10 10 * inch)%py (H - lit 14 10 * inch)%py title).
Proof.
  intros Hdoc. rewrite build_catalog_pdf_eq in Hdoc.
  apply catalog_document_ok_inv in Hdoc.
  destruct Hdoc as (lr & ps & _ & _ & ->).
  split; [reflexivity|].
  eexists. split; reflexivity.
Qed.

(** An empty entry image makes the call raise [empty_image_error]. *)
Lemma empty_entry_raises today logo images title subtitle footer name img :
  In (name, img) images ->
  is_empty img = true ->
  build_catalog_pdf (R:=R) acc today logo images title subtitle footer =
  Raise (empty_image_error acc).
Proof.
  intros Hin He.
  destruct (build_catalog_pdf (R:=R) acc today logo images title subtitle footer)
    as [doc|e] eqn:Hb.
  - exfalso.
    pose proof (build_catalog_pdf_is_ok (R:=R) acc today logo images
                  title subtitle footer) as Hok.
    rewrite Hb in Hok. simpl in Hok. symmetry in Hok.
    unfold renderable in Hok. apply andb_true_iff in Hok.
    destruct Hok as [_ Hall].
    rewrite forallb_forall in Hall. specialize (Hall _ Hin).
    simpl in Hall. rewrite He in Hall. discriminate.
  - f_equal. rewrite build_catalog_pdf_eq in Hb. unfold catalog_document in Hb.
    apply rbind_raise_inv in Hb. destruct Hb as [Hb|(lr & _ & Hb)].
    + apply logo_reader_raise in Hb. tauto.
    + apply rbind_raise_inv in Hb. destruct Hb as [Hb|(ps & _ & Hb)];
        [|discriminate].
      apply mapM_result_raise in Hb.
      destruct Hb as ([idx [n i]] & _ & Hb).
      destruct (is_empty i) eqn:Ei.
      * rewrite (entry_render_empty acc lr footer idx n i Ei) in Hb.
        congruence.
      * rewrite (entry_render_nonempty acc lr footer idx n i Ei) in Hb.
        discriminate.
Qed.

(** C4 as the code has it.  When some entry has an image of zero width or
    zero height, rendering returns no document: it raises the exception of
    the library call that fails first, the PNG encoder's or, had the
    encoder let the image through, the one of the division.  The program
    wraps neither and the exception does not depend on what the entries
    are called: renaming every entry leaves it as it is. *)
Theorem build_catalog_pdf_empty_image today logo images title subtitle footer
  name img :
  In (name, img) images ->
  is_empty img = true ->
  exists e,
    build_catalog_pdf (R:=R) acc today logo images title subtitle footer =
      Raise e /\
    (e = empty_error acc \/ e = ZeroDivisionError) /\
    forall rename : string -> string,
      build_catalog_pdf (R:=R) acc today logo
        (map (fun p => (rename (fst p), snd p)) images) title subtitle footer =
      Raise e.
Proof.
  intros Hin He. exists (empty_image_error acc).
  split; [exact (empty_entry_raises _ _ _ _ _ _ _ _ Hin He)|].
  split.
  { unfold empty_image_error. destruct (accepts_empty acc); auto. }
  intros rename.
  apply (empty_entry_raises _ _ _ _ _ _ (rename name) img); [|exact He].
  apply (in_map (fun p : string * Image => (rename (fst p), snd p))
                images (name, img) Hin).
Qed.

End Pages.

(* ===================================================================== *)
(** * Rendering without a logo                                            *)
(* ===================================================================== *)

Lemma mapM_result_Forall2 {A B} (f g : A -> result B) (P : B -> B -> Prop) l bs :
  (forall a b, In a l -> f a = Ok b -> exists b', g a = Ok b' /\ P b b') ->
  mapM_result f l = Ok bs ->
  exists bs', mapM_result g l = Ok bs' /\ Forall2 P bs bs'.
Proof.
  revert bs; induction l as [|a l IH]; simpl; intros bs HP E.
  - injection E as <-. exists []. split; [reflexivity | constructor].
  - apply rbind_ok_inv in E. destruct E as (b & Eb & E).
    apply rbind_ok_inv in E. destruct E as (bs1 & E1 & E).
    injection E as <-.
    destruct (HP a b (or_introl eq_refl) Eb) as (b' & Eb' & Pb).
    destruct (IH bs1 (fun a0 b0 Hin => HP a0 b0 (or_intror Hin)) E1)
      as (bs' & Ebs' & Pbs).
    exists (b' :: bs'). rewrite Eb', Ebs'. simpl.
    split; [reflexivity | constructor; assumption].
Qed.

Section WithoutLogo.

Context {R : Type} {FR : PyFloat R}.
Variable acc : png_encoder.

Lemma cover_ops_adds_logo today lr title subtitle footer :
  adds_logo lr (cover_ops (R:=R) today (Some lr) title subtitle footer)
               (cover_ops today None title subtitle footer) /\
  text_ops (cover_ops (R:=R) today (Some lr) title subtitle footer) =
  text_ops (cover_ops today None title subtitle footer).
Proof.
  split; [|reflexivity].
  unfold adds_logo, cover_ops, logo_ops.
  do 6 eexists. split; reflexivity.
Qed.

Lemma entry_render_adds_logo lr footer e (p1 : list (op R)) :
  entry_render acc (Some lr) footer e = Ok p1 ->
  exists p0,
    entry_render acc None footer e = Ok p0 /\
    adds_logo lr p1 p0 /\ text_ops p1 = text_ops p0.
Proof.
  destruct e as [idx [name img]]. intros E.
  destruct (is_empty img) eqn:Ei.
  - rewrite (entry_render_empty acc (Some lr) footer idx name img Ei) in E.
    discriminate.
  - rewrite (entry_render_nonempty acc (Some lr) footer idx name img Ei) in E.
    rewrite (entry_render_nonempty acc None footer idx name img Ei).
    destruct (fit_rect (width img) (height img)) as [[[x y] w] h].
    injection E as <-.
    eexists. split; [reflexivity|].
    split; [|reflexivity].
    unfold adds_logo.
    exists [SetFont "Helvetica-Bold" 18;
            DrawString (lit 10 10 * inch)%py (H - lit 10 10 * inch)%py
                       ("Design " ++ format_0d 2 idx);
            SetFont "Helvetica" 10;
            DrawString (lit 10 10 * inch)%py (H - lit 125 100 * inch)%py
                       ("Source: " ++ name)].
    do 5 eexists. split; reflexivity.
Qed.

(** C6.  A call without a logo is an ordinary call: whenever the call with
    a logo returns a document, so does the call without, with the same
    metadata title and the same number of pages; page by page, the document
    with the logo is the other one with a single additional operation, the
    drawing of the logo's reader, and the fonts and strings of the two
    pages are the same, at the same places and in the same order. *)
Theorem build_catalog_pdf_without_logo today logo images title subtitle footer
  (d1 : Document R) :
  build_catalog_pdf acc today (Some logo) images title subtitle footer = Ok d1 ->
  exists d0 lr,
    build_catalog_pdf acc today None images title subtitle footer = Ok d0 /\
    img_to_reader acc logo = Ok lr /\
    doc_title d0 = doc_title d1 /\
    List.length (doc_pages d0) = List.length (doc_pages d1) /\
    Forall2 (fun p1 p0 => adds_logo lr p1 p0 /\ text_ops p1 = text_ops p0)
            (doc_pages d1) (doc_pages d0).
Proof.
  intros E1. rewrite build_catalog_pdf_eq in E1.
  apply catalog_document_ok_inv in E1.
  destruct E1 as (olr & ps1 & Hlr & Hps1 & ->).
  unfold logo_reader in Hlr.
  destruct (img_to_reader acc logo) as [lr|x] eqn:El; [|discriminate].
  simpl in Hlr. injection Hlr as <-.
  destruct (mapM_result_Forall2
              (entry_render acc (Some lr) footer) (entry_render acc None footer)
              (fun p1 p0 => adds_logo lr p1 p0 /\ text_ops p1 = text_ops p0)
              (enumerate 1 images) ps1) as (ps0 & Hps0 & Hall).
  { intros e p _ He. apply entry_render_adds_logo. exact He. }
  { exact Hps1. }
  exists (mk_Document (Some title)
            (cover_ops today None title subtitle footer :: ps0)), lr.
  split.
  { rewrite build_catalog_pdf_eq. unfold catalog_document. simpl.
    rewrite Hps0. reflexivity. }
  split; [reflexivity|]. split; [reflexivity|].
  split.
  { cbn [List.length doc_pages].
    pose proof (mapM_result_length _ _ _ Hps0) as L0.
    pose proof (mapM_result_length _ _ _ Hps1) as L1.
    unfold page in *. congruence. }
  simpl. constructor; [apply cover_ops_adds_logo | exact Hall].
Qed.

End WithoutLogo.

(* ===================================================================== *)
(** * Flattening an image onto white                                      *)
(* ===================================================================== *)

(** One RGBA pixel blended onto white through its own alpha. *)
Definition over_white (p : rgba) : rgb :=
  let '(_, _, _, a) := p in blend_px a white p.

Definition is_byte (c : Z) : Prop := 0 <= c <= 255.

Lemma paste_white_alpha (n : nat) (d : list rgba) :
  paste (repeat white n) d (split_alpha d) = map over_white (firstn n d).
Proof.
  revert d; induction n as [|n IH]; intros d; simpl.
  - reflexivity.
  - destruct d as [|[[[r g] b] a] d]; simpl; [reflexivity|].
    f_equal. apply IH.
Qed.

(** [DIV255] is the division by 255 rounded to nearest: it is exact on the
    multiples of 255 and monotone in between. *)
Lemma DIV255_exact (c : Z) : 0 <= c <= 255 -> DIV255 (255 * c) = c.
Proof.
  intros Hc. unfold DIV255. cbv zeta.
  rewrite !Z.shiftr_div_pow2 by lia.
  change (2 ^ 8) with 256. Z.div_mod_to_equations. lia.
Qed.

Lemma DIV255_bounds (x c : Z) :
  0 <= c -> 255 * c <= x <= 65025 -> c <= DIV255 x <= 255.
Proof.
  intros Hc Hx. unfold DIV255. cbv zeta.
  rewrite !Z.shiftr_div_pow2 by lia.
  change (2 ^ 8) with 256. Z.div_mod_to_equations. lia.
Qed.

(** Blending a byte onto white: full alpha keeps the colour, zero alpha
    gives white, and any alpha gives a byte between the colour and white. *)
Lemma BLEND8_white (a c : Z) :
  is_byte a -> is_byte c ->
  BLEND8 255 255 c = c /\
  BLEND8 0 255 c = 255 /\
  c <= BLEND8 a 255 c <= 255.
Proof.
  intros Ha Hc. unfold is_byte in *. unfold BLEND8.
  split; [|split].
  - replace (255 * (255 - 255) + c * 255) with (255 * c) by lia.
    apply DIV255_exact. exact Hc.
  - replace (255 * (255 - 0) + c * 0) with 65025 by lia. reflexivity.
  - apply DIV255_bounds; [lia|]. nia.
Qed.


Lemma flattened_RGBA img d :
  pixels img = Px_RGBA d ->
  pixels (flattened img) =
  Px_RGB (map over_white (firstn (N.to_nat (width img * height img)) d)).
Proof.
  intros E. unfold flattened. rewrite E. simpl. f_equal.
  unfold Image_new_RGB. apply paste_white_alpha.
Qed.

Lemma flattened_other img :
  img_mode img <> RGBA -> flattened img = convert_RGB img.
Proof.
  unfold flattened, img_mode. destruct (pixels img); intros E;
    [reflexivity | reflexivity | reflexivity | congruence].
Qed.

Lemma img_to_reader_ok_inv acc img r :
  img_to_reader acc img = Ok r -> r = mk_reader (flattened img).
Proof.
  rewrite img_to_reader_cases.
  destruct (is_empty img && negb (accepts_empty acc)); intros E; congruence.
Qed.

Section EmbeddedImages.

Context {R : Type} {FR : PyFloat R}.
Variable acc : png_encoder.





End EmbeddedImages.

(* ===================================================================== *)
(** * Names: suffixes, case and order                                     *)
(* ===================================================================== *)

Lemma endswith_iff (s suffix : string) :
  endswith s suffix = true <-> exists p, s = p ++ suffix.
Proof.
  split.
  - induction s as [|c s IH]; cbn [endswith]; intros E.
    + rewrite orb_false_r in E. apply String.eqb_eq in E. subst.
      exists "". reflexivity.
    + apply orb_true_iff in E. destruct E as [E|E].
      * apply String.eqb_eq in E. exists "". simpl. exact E.
      * destruct (IH E) as (p & ->). exists (String c p). reflexivity.
  - intros (p & ->). induction p as [|c p IH].
    + change ("" ++ suffix) with suffix.
      destruct suffix; cbn [endswith]; rewrite String.eqb_refl; reflexivity.
    + change (String c p ++ suffix) with (String c (p ++ suffix)).
      cbn [endswith]. rewrite IH. apply orb_true_r.
Qed.

Lemma lower_append (a b : string) : lower (a ++ b) = lower a ++ lower b.
Proof. induction a as [|c a IH]; simpl; [reflexivity | f_equal; exact IH]. Qed.

Lemma lower_split (s p suffix : string) :
  lower s = p ++ suffix ->
  exists stem ext, s = stem ++ ext /\ lower stem = p /\ lower ext = suffix.
Proof.
  revert s; induction p as [|c p IH]; intros s E; simpl in E.
  - exists "", s. auto.
  - destruct s as [|c0 s]; simpl in E; [discriminate|].
    injection E as Ec E.
    destruct (IH s E) as (stem & ext & -> & Hs & He).
    exists (String c0 stem), ext. simpl. rewrite Hs, Ec. auto.
Qed.

(** X10.  A name passes the test of line 20 exactly when it is a stem,
    possibly empty, followed by an extension that is [.png], [.jpg] or
    [.jpeg] up to the case of its letters. *)
Lemma is_image_name_iff (name : string) :
  is_image_name name = true <->
  exists stem ext,
    name = stem ++ ext /\
    (lower ext = ".png" \/ lower ext = ".jpg" \/ lower ext = ".jpeg").
Proof.
  unfold is_image_name, endswith_any, image_suffixes. simpl existsb.
  rewrite orb_false_r, !orb_true_iff, !endswith_iff.
  split.
  - intros [(p & E)|[(p & E)|(p & E)]];
      destruct (lower_split _ _ _ E) as (stem & ext & -> & _ & He);
      exists stem, ext; tauto.
  - intros (stem & ext & -> & E). rewrite lower_append.
    destruct E as [ -> | [ -> | -> ] ]; [left | right; left | right; right];
      exists (lower stem); reflexivity.
Qed.






(** ** The order of [str] *)

Lemma ascii_compare_N (a b : ascii) :
  Ascii.compare a b = N.compare (N_of_ascii a) (N_of_ascii b).
Proof. reflexivity. Qed.

Lemma string_compare_trans_le (a b c : string) :
  String.compare a b <> Gt -> String.compare b c <> Gt ->
  String.compare a c <> Gt.
Proof.
  revert b c; induction a as [|x a IH]; intros [|y b] [|z c]; simpl;
    try congruence.
  rewrite !ascii_compare_N.
  destruct (N.compare_spec (N_of_ascii x) (N_of_ascii y)) as [Exy|Lxy|Gxy];
    destruct (N.compare_spec (N_of_ascii y) (N_of_ascii z)) as [Eyz|Lyz|Gyz];
    try congruence; intros Hab Hbc.
  - rewrite Exy, Eyz, N.compare_refl. exact (IH b c Hab Hbc).
  - rewrite Exy. rewrite (proj2 (N.compare_lt_iff _ _) Lyz). discriminate.
  - rewrite <- Eyz. rewrite (proj2 (N.compare_lt_iff _ _) Lxy). discriminate.
  - rewrite (proj2 (N.compare_lt_iff _ _) (N.lt_trans _ _ _ Lxy Lyz)).
    discriminate.
Qed.

Lemma string_leb_le (a b : string) :
  String.leb a b = true <-> String.compare a b <> Gt.
Proof.
  unfold String.leb. destruct (String.compare a b); split; congruence.
Qed.

Lemma string_leb_trans (a b c : string) :
  String.leb a b = true -> String.leb b c = true -> String.leb a c = true.
Proof.
  rewrite !string_leb_le. apply string_compare_trans_le.
Qed.

(** Ascending in the order of [str]: every name is below all later ones. *)
Definition ascending (l : list string) : Prop :=
  StronglySorted (fun a b => String.leb a b = true) l.

Lemma insert_sorted_perm x l : Permutation (insert_sorted x l) (x :: l).
Proof.
  induction l as [|y l IH]; simpl; [reflexivity|].
  destruct (String.leb x y); [reflexivity|].
  rewrite IH. apply perm_swap.
Qed.

Lemma sorted_perm l : Permutation (sorted l) l.
Proof.
  induction l as [|x l IH]; simpl; [reflexivity|].
  rewrite insert_sorted_perm. constructor. exact IH.
Qed.

Lemma insert_sorted_ascending x l :
  ascending l -> ascending (insert_sorted x l).
Proof.
  unfold ascending.
  induction l as [|y l IH]; simpl; intros Hl.
  - constructor; constructor.
  - destruct (String.leb x y) eqn:E.
    + constructor; [exact Hl|].
      apply StronglySorted_inv in Hl. destruct Hl as [_ Hy].
      constructor; [exact E|].
      eapply Forall_impl; [|exact Hy].
      intros z Hz. exact (string_leb_trans _ _ _ E Hz).
    + apply StronglySorted_inv in Hl. destruct Hl as [Hl Hy].
      constructor; [exact (IH Hl)|].
      assert (Hyx : String.leb y x = true).
      { destruct (String.leb_total x y) as [H1|H1]; congruence. }
      eapply Permutation_Forall.
      { symmetry. apply insert_sorted_perm. }
      constructor; assumption.
Qed.

Lemma sorted_ascending l : ascending (sorted l).
Proof.
  induction l as [|x l IH]; simpl.
  - constructor.
  - apply insert_sorted_ascending. exact IH.
Qed.

Lemma filter_ascending (f : string -> bool) l :
  ascending l -> ascending (filter f l).
Proof.
  unfold ascending. induction 1 as [|x l Hl IH Hx]; simpl.
  - constructor.
  - destruct (f x); [|exact IH].
    constructor; [exact IH|].
    apply Forall_forall. intros y Hy.
    apply filter_In in Hy. rewrite Forall_forall in Hx. apply Hx, Hy.
Qed.

Lemma filter_perm {A} (f : A -> bool) l l' :
  Permutation l l' -> Permutation (filter f l) (filter f l').
Proof.
  induction 1 as [|x l l' _ IH|x y l|l l' l'' _ IH1 _ IH2]; simpl.
  - constructor.
  - destruct (f x); [constructor|]; exact IH.
  - destruct (f x), (f y); try reflexivity. apply perm_swap.
  - etransitivity; eassumption.
Qed.

(* ===================================================================== *)
(** * Reading the archive                                                 *)
(* ===================================================================== *)

(** A listed name is found: [z.read] yields what reading some entry of
    that name yields, never the [KeyError] of a missing name. *)
Lemma zread_in (z : ZipFile) (name : string) :
  In name (namelist z) -> In (name, zread z name) z.
Proof.
  intros Hin. unfold zread.
  destruct (find (fun e => (fst e =? name)%string) (rev z)) as [[n d]|] eqn:E.
  - apply find_some in E. destruct E as [Hz He]. simpl in He.
    apply String.eqb_eq in He. subst n. apply in_rev. exact Hz.
  - exfalso. unfold namelist in Hin. apply in_map_iff in Hin.
    destruct Hin as ([n d] & Hn & Hz). simpl in Hn. subst n.
    apply in_rev in Hz.
    pose proof (find_none _ _ E _ Hz) as Hf. simpl in Hf.
    rewrite String.eqb_refl in Hf. discriminate.
Qed.

Section ArchiveFacts.

Context {Decoded : Type}.
Variable ZipFile_open : bytes -> result ZipFile.
Variable Image_open : bytes -> result Decoded.
Variable convert_RGBA : Decoded -> result rgba_image.

(** The pair that the loop appends for one image name: the three calls of
    line 21, each of which may raise. *)
Definition decode_entry (z : ZipFile) (name : string)
  : result (string * Image) :=
  rbind (zread z name) (fun data =>
  rbind (Image_open data) (fun opened =>
  rbind (convert_RGBA opened) (fun img =>
  Ok (name, Image_of_rgba img)))).

Lemma read_names_eq z names out :
  read_names Image_open convert_RGBA z names out =
  rbind (mapM_result (decode_entry z) (filter is_image_name names))
        (fun ps => Ok (out ++ ps)%list).
Proof.
  revert out; induction names as [|name rest IH]; intros out; simpl.
  - rewrite app_nil_r. reflexivity.
  - destruct (is_image_name name); [|apply IH].
    simpl. unfold decode_entry at 1.
    destruct (zread z name) as [data|e]; simpl; [|reflexivity].
    destruct (Image_open data) as [opened|e]; simpl; [|reflexivity].
    destruct (convert_RGBA opened) as [img|e]; simpl; [|reflexivity].
    rewrite IH.
    destruct (mapM_result (decode_entry z) (filter is_image_name rest));
      simpl; [|reflexivity].
    rewrite <- app_assoc. reflexivity.
Qed.

Lemma read_zip_images_eq zip_bytes z :
  ZipFile_open zip_bytes = Ok z ->
  read_zip_images ZipFile_open Image_open convert_RGBA zip_bytes =
  mapM_result (decode_entry z) (filter is_image_name (sorted (namelist z))).
Proof.
  intros E. unfold read_zip_images. rewrite E. simpl.
  rewrite read_names_eq.
  destruct (mapM_result (decode_entry z)
              (filter is_image_name (sorted (namelist z)))); reflexivity.
Qed.

Lemma decode_entry_ok z name p :
  decode_entry z name = Ok p ->
  exists data opened img,
    zread z name = Ok data /\ Image_open data = Ok opened /\
    convert_RGBA opened = Ok img /\
    p = (name, Image_of_rgba img).
Proof.
  unfold decode_entry. intros E.
  apply rbind_ok_inv in E. destruct E as (data & Hd & E).
  apply rbind_ok_inv in E. destruct E as (opened & Ho & E).
  apply rbind_ok_inv in E. destruct E as (img & Hc & E).
  injection E as <-. exists data, opened, img. auto.
Qed.

Lemma decode_entry_steps z name data opened img :
  zread z name = Ok data -> Image_open data = Ok opened ->
  convert_RGBA opened = Ok img ->
  decode_entry z name = Ok (name, Image_of_rgba img).
Proof.
  intros Hd Ho Hc. unfold decode_entry. rewrite Hd. simpl.
  rewrite Ho. simpl. rewrite Hc. reflexivity.
Qed.

(** The exception of the first of the three calls that raises. *)
Lemma decode_entry_raise z name e :
  decode_entry z name = Raise e ->
  zread z name = Raise e \/
  exists data,
    zread z name = Ok data /\
    (Image_open data = Raise e \/
     exists opened, Image_open data = Ok opened /\
                    convert_RGBA opened = Raise e).
Proof.
  unfold decode_entry. intros E.
  destruct (zread z name) as [data|e1]; simpl in E;
    [right | left; congruence].
  exists data. split; [reflexivity|].
  destruct (Image_open data) as [opened|e2]; simpl in E;
    [right | left; congruence].
  exists opened. split; [reflexivity|].
  destruct (convert_RGBA opened) as [img|e3]; simpl in E;
    [discriminate | congruence].
Qed.

Lemma mapM_result_fst z names out :
  mapM_result (decode_entry z) names = Ok out -> map fst out = names.
Proof.
  revert out; induction names as [|n names IH]; simpl; intros out E.
  - injection E as <-. reflexivity.
  - apply rbind_ok_inv in E. destruct E as (p & Hp & E).
    apply rbind_ok_inv in E. destruct E as (ps & Hps & E).
    injection E as <-. simpl.
    apply decode_entry_ok in Hp. destruct Hp as (d & o & c & _ & _ & _ & ->).
    simpl. f_equal. apply IH. exact Hps.
Qed.

(** The names that the loop visits are the image names of the archive. *)
Lemma visited_names z n :
  In n (filter is_image_name (sorted (namelist z))) <->
  In n (namelist z) /\ is_image_name n = true.
Proof.
  rewrite filter_In. split; intros [Hn Hi]; (split; [|exact Hi]).
  - eapply Permutation_in; [apply sorted_perm | exact Hn].
  - eapply Permutation_in; [symmetry; apply sorted_perm | exact Hn].
Qed.

End ArchiveFacts.

Section ArchiveReader.

Context {Decoded : Type}.
Variable ZipFile_open : bytes -> result ZipFile.
Variable Image_open : bytes -> result Decoded.
Variable convert_RGBA : Decoded -> result rgba_image.


(** C9 as the code has it.  Entries are read by name.  When the archive
    opens and, for some image name of the archive, the bytes read under
    that name are rejected by the decoder or by the conversion, the reader
    returns no pairs at all: it raises what reading, decoding or converting
    raised for an image name of the archive.  No entry is skipped, and the
    result has no place for a count of skipped entries. *)
Theorem read_zip_images_undecodable zip_bytes z name data e :
  ZipFile_open zip_bytes = Ok z ->
  In name (namelist z) ->
  is_image_name name = true ->
  zread z name = Ok data ->
  rbind (Image_open data) convert_RGBA = Raise e ->
  exists e' name',
    read_zip_images ZipFile_open Image_open convert_RGBA zip_bytes = Raise e' /\
    In name' (namelist z) /\ is_image_name name' = true /\
    (zread z name' = Raise e' \/
     exists data',
       zread z name' = Ok data' /\
       rbind (Image_open data') convert_RGBA = Raise e').
Proof.
  intros Hz Hin Hi Hd He.
  rewrite (read_zip_images_eq ZipFile_open Image_open convert_RGBA zip_bytes z Hz).
  set (names := filter is_image_name (sorted (namelist z))).
  assert (Hn : In name names).
  { apply visited_names. split; assumption. }
  destruct (mapM_result (decode_entry Image_open convert_RGBA z) names)
    as [out|e'] eqn:Em.
  - exfalso.
    pose proof (mapM_result_is_ok (decode_entry Image_open convert_RGBA z) names)
      as Hok.
    rewrite Em in Hok. simpl in Hok. symmetry in Hok.
    rewrite forallb_forall in Hok. specialize (Hok name Hn).
    unfold decode_entry in Hok. rewrite Hd in Hok. simpl in Hok.
    destruct (Image_open data) as [opened|x]; simpl in He, Hok;
      [|discriminate].
    rewrite He in Hok. discriminate.
  - apply mapM_result_raise in Em. destruct Em as (name' & Hn' & Hr).
    apply visited_names in Hn'. destruct Hn' as [Hin' Hi'].
    exists e', name'. split; [reflexivity|].
    split; [exact Hin'|]. split; [exact Hi'|].
    apply decode_entry_raise in Hr.
    destruct Hr as [Hr|(data' & Hd' & Hr)]; [left; exact Hr|].
    right. exists data'. split; [exact Hd'|].
    destruct Hr as [Hr|(opened & Ho & Hc)].
    + rewrite Hr. reflexivity.
    + rewrite Ho. exact Hc.
Qed.

End ArchiveReader.

(* ===================================================================== *)
(** * The date of generation                                              *)
(* ===================================================================== *)

Section GenerationDate.

Context {R : Type} {FR : PyFloat R}.
Variable acc : png_encoder.

(** The date reaches the document through one operation only, the string
    of the generated line on the cover (operation 5 of page 0): two calls
    that differ in the date alone return documents that agree on the title,
    on every entry page and on every other operation of the cover. *)
Lemma build_catalog_pdf_date d1 d2 logo images title subtitle footer
  (doc1 : Document R) :
  build_catalog_pdf acc d1 logo images title subtitle footer = Ok doc1 ->
  exists doc2 cover1 cover2 rest,
    build_catalog_pdf acc d2 logo images title subtitle footer = Ok doc2 /\
    doc_title doc2 = doc_title doc1 /\
    doc_pages doc1 = cover1 :: rest /\
    doc_pages doc2 = cover2 :: rest /\
    nth_error cover1 5 =
      Some (DrawString (lit 10 10 * inch)%py (H - lit 22 10 * inch)%py
                       ("Generated: " ++ isoformat d1)) /\
    nth_error cover2 5 =
      Some (DrawString (lit 10 10 * inch)%py (H - lit 22 10 * inch)%py
                       ("Generated: " ++ isoformat d2)) /\
    forall k, k <> 5%nat -> nth_error cover1 k = nth_error cover2 k.
Proof.
  intros E. rewrite build_catalog_pdf_eq in E.
  apply catalog_document_ok_inv in E.
  destruct E as (lr & ps & Hlr & Hps & ->).
  exists (mk_Document (Some title)
            (cover_ops d2 lr title subtitle footer :: ps)),
         (cover_ops d1 lr title subtitle footer),
         (cover_ops d2 lr title subtitle footer), ps.
  split.
  { rewrite build_catalog_pdf_eq. unfold catalog_document.
    rewrite Hlr. simpl. rewrite Hps. reflexivity. }
  repeat (split; [reflexivity|]).
  intros k Hk.
  do 5 (destruct k as [|k]; [reflexivity|]).
  destruct k as [|k]; [congruence | reflexivity].
Qed.

End GenerationDate.

(* ===================================================================== *)
(** * Binary64: literals and a rounding case                              *)
(* ===================================================================== *)

#[local] Set Warnings "-inexact-float".

(** The decimal literals of the program, as [lit] computes them in
    binary64, are the doubles the Python parser reads. *)
Lemma binary64_literals :
  lit (R:=float) 10 10 = 1.0%float /\ lit (R:=float) 14 10 = 1.4%float /\
  lit (R:=float) 18 10 = 1.8%float /\ lit (R:=float) 22 10 = 2.2%float /\
  lit (R:=float) 25 10 = 2.5%float /\ lit (R:=float) 16 10 = 1.6%float /\
  lit (R:=float) 8 10 = 0.8%float /\ lit (R:=float) 9 10 = 0.9%float /\
  lit (R:=float) 125 100 = 1.25%float /\ lit (R:=float) 12 10 = 1.2%float /\
  lit (R:=float) 75 100 = 0.75%float /\ lit (R:=float) 30 10 = 3.0%float /\
  lit (R:=float) 85 10 = 8.5%float.
Proof. repeat split; reflexivity. Qed.

(** The letter page and the content box in binary64, in points. *)
Lemma binary64_page :
  W (R:=float) = 612%float /\ H (R:=float) = 792%float /\
  margin_x (R:=float) = 72%float /\
  box_w (R:=float) = 468%float /\ box_h (R:=float) = 576%float.
Proof. repeat split; reflexivity. Qed.

(** C3, the claim as stated fails in the arithmetic of the program.  An
    image of 23 x 1 pixels has scale [468.0 / 23], and [23 * (468.0 / 23)]
    rounds to 468.00000000000006: the drawn width exceeds the width of the
    content box, and the left edge lies left of the margin. *)
Lemma fit_binary64_exceeds_box :
  exists x y draw_w draw_h : float,
    fit (R:=float) 23 1 = Ok (x, y, draw_w, draw_h) /\
    box_w (R:=float) = 468%float /\
    draw_w = 0x1.d400000000001p+8%float /\
    flt box_w draw_w = true /\
    flt x margin_x = true.
Proof.
  do 4 eexists. split; [vm_compute; reflexivity|].
  repeat split; reflexivity.
Qed.


(* ===================================================================== *)
(** * Binary64: the error of one rounding                                 *)
(* ===================================================================== *)

(** The primitive operations are specified by [SpecFloat]: the exact result
    is computed on mantissas and exponents and then rounded by
    [binary_round_aux].  This part derives, from that specification, what
    the placement needs: products and quotients of positive normal numbers
    carry a relative error of at most [2^-52], integers below [2^53]
    convert exactly, and the comparison is the one of the values. *)

(** ** Digits and shifts *)

Lemma digits2_pos_bounds (p : positive) :
  2 ^ (Zpos (digits2_pos p) - 1) <= Zpos p < 2 ^ Zpos (digits2_pos p).
Proof.
  induction p as [p IH|p IH|]; cbn [digits2_pos].
  - rewrite Pos2Z.inj_succ.
    replace (Z.succ (Zpos (digits2_pos p)) - 1) with (Z.succ (Zpos (digits2_pos p) - 1)) by lia.
    rewrite !Z.pow_succ_r by lia. lia.
  - rewrite Pos2Z.inj_succ.
    replace (Z.succ (Zpos (digits2_pos p)) - 1) with (Z.succ (Zpos (digits2_pos p) - 1)) by lia.
    rewrite !Z.pow_succ_r by lia. lia.
  - simpl. lia.
Qed.

Lemma digits2_pos_unique (p : positive) (d : Z) :
  2 ^ (d - 1) <= Zpos p < 2 ^ d -> Zpos (digits2_pos p) = d.
Proof.
  intros [Hl Hu].
  pose proof (digits2_pos_bounds p) as [Hl' Hu'].
  set (d' := Zpos (digits2_pos p)) in *.
  assert (Hd' : 0 < d') by (unfold d'; lia).
  assert (Hd : 0 < d).
  { destruct (Z_lt_le_dec 0 d) as [|Hn]; [assumption|exfalso].
    assert (2 ^ d <= 2 ^ 0) by (apply Z.pow_le_mono_r; lia).
    change (2 ^ 0) with 1 in *. lia. }
  destruct (Z_lt_le_dec d d') as [Hlt|Hge].
  - exfalso. assert (2 ^ d <= 2 ^ (d' - 1)) by (apply Z.pow_le_mono_r; lia). lia.
  - destruct (Z_lt_le_dec d' d) as [Hlt|Hge']; [|lia].
    exfalso. assert (2 ^ d' <= 2 ^ (d - 1)) by (apply Z.pow_le_mono_r; lia). lia.
Qed.

Lemma shr_1_m (r : shr_record) :
  0 <= shr_m r -> shr_m (shr_1 r) = shr_m r / 2.
Proof.
  destruct r as [m rb sb]. cbn [shr_m]. intros Hm.
  destruct m as [|[p|p|]|p]; cbn [shr_1 shr_m].
  - reflexivity.
  - apply Z.div_unique with (r := 1); lia.
  - apply Z.div_unique with (r := 0); lia.
  - reflexivity.
  - lia.
Qed.

Lemma pow2_xO (p : positive) : 2 ^ Zpos p~0 = 2 ^ Zpos p * 2 ^ Zpos p.
Proof. rewrite Pos2Z.inj_xO, <- Z.pow_add_r by lia. f_equal. lia. Qed.

Lemma pow2_xI (p : positive) : 2 ^ Zpos p~1 = 2 * (2 ^ Zpos p * 2 ^ Zpos p).
Proof.
  rewrite Pos2Z.inj_xI, <- Z.pow_add_r by lia.
  replace (2 * Zpos p + 1) with (Z.succ (Zpos p + Zpos p)) by lia.
  rewrite Z.pow_succ_r by lia. reflexivity.
Qed.

Lemma iter_shr_m (p : positive) (r : shr_record) :
  0 <= shr_m r -> shr_m (iter_pos shr_1 p r) = shr_m r / 2 ^ Zpos p.
Proof.
  revert r; induction p as [p IH|p IH|]; intros r Hr; cbn [iter_pos].
  - assert (Hp : 0 < 2 ^ Zpos p) by (apply Z.pow_pos_nonneg; lia).
    assert (H1 : 0 <= shr_m (shr_1 r))
      by (rewrite shr_1_m by assumption; apply Z.div_pos; lia).
    assert (H2 : 0 <= shr_m (iter_pos shr_1 p (shr_1 r)))
      by (rewrite IH by assumption; apply Z.div_pos; assumption).
    rewrite IH, IH, shr_1_m by assumption.
    rewrite !Z.div_div by lia.
    rewrite pow2_xI. reflexivity.
  - assert (Hp : 0 < 2 ^ Zpos p) by (apply Z.pow_pos_nonneg; lia).
    assert (H2 : 0 <= shr_m (iter_pos shr_1 p r))
      by (rewrite IH by assumption; apply Z.div_pos; assumption).
    rewrite IH, IH by assumption.
    rewrite !Z.div_div by lia.
    rewrite pow2_xO. reflexivity.
  - rewrite shr_1_m by assumption. reflexivity.
Qed.

Lemma round_nearest_even_cases (m : Z) (l : location) :
  round_nearest_even m l = m \/ round_nearest_even m l = m + 1.
Proof.
  destruct l as [|[| |]]; cbn [round_nearest_even]; auto.
  destruct (Z.even m); auto.
Qed.

Lemma loc_of_shr_record_of_loc (m : Z) (l : location) :
  loc_of_shr_record (shr_record_of_loc m l) = l.
Proof. destruct l as [|[| |]]; reflexivity. Qed.

Lemma shr_m_of_loc (m : Z) (l : location) : shr_m (shr_record_of_loc m l) = m.
Proof. destruct l as [|[| |]]; reflexivity. Qed.

(** The first shift of a rounding: a mantissa of [d >= 53] digits loses its
    [d - 53] low digits. *)
Lemma shr_fexp_normal (m : positive) (e : Z) (l : location) :
  let n := Zpos (digits2_pos m) - 53 in
  0 <= n -> -1074 <= e + n ->
  exists r,
    shr_fexp prec emax (Zpos m) e l = (r, e + n) /\
    shr_m r = Zpos m / 2 ^ n /\
    (n = 0 -> r = shr_record_of_loc (Zpos m) l).
Proof.
  intros n Hn He. unfold shr_fexp, fexp, SpecFloat.emin, prec, emax.
  cbn [Zdigits2].
  replace (Z.max (Zpos (digits2_pos m) + e - 53) (3 - 1024 - 53) - e) with n
    by (unfold n; lia).
  destruct n as [|pn|pn] eqn:En; [| |lia].
  - eexists. split; [cbn [shr]; rewrite Z.add_0_r; reflexivity|].
    split; [rewrite shr_m_of_loc, Z.div_1_r; reflexivity | reflexivity].
  - eexists. split; [cbn [shr]; reflexivity|].
    split; [|discriminate].
    rewrite iter_shr_m by (rewrite shr_m_of_loc; lia).
    rewrite shr_m_of_loc. reflexivity.
Qed.

Lemma top_digits_bounds (mx : positive) :
  let n := Zpos (digits2_pos mx) - 53 in
  0 <= n -> 2 ^ 52 <= Zpos mx / 2 ^ n < 2 ^ 53.
Proof.
  intros n Hn.
  pose proof (digits2_pos_bounds mx) as [Hl Hu].
  assert (Hp : 0 < 2 ^ n) by (apply Z.pow_pos_nonneg; lia).
  replace (Zpos (digits2_pos mx) - 1) with (52 + n) in Hl by (unfold n; lia).
  replace (Zpos (digits2_pos mx)) with (53 + n) in Hu by (unfold n; lia).
  rewrite Z.pow_add_r in Hl, Hu by lia.
  split.
  - apply Z.div_le_lower_bound; lia.
  - apply Z.div_lt_upper_bound; lia.
Qed.

Lemma binary_round_aux_normal (mx : positive) (ex : Z) (lx : location) :
  let n := Zpos (digits2_pos mx) - 53 in
  0 <= n -> -1074 <= ex + n -> ex + n < 971 ->
  exists (m : positive) (e m2 : Z),
    binary_round_aux prec emax false (Zpos mx) ex lx = S754_finite false m e /\
    2 ^ 52 <= Zpos m < 2 ^ 53 /\
    (m2 = Zpos mx / 2 ^ n \/ m2 = Zpos mx / 2 ^ n + 1) /\
    (lx = loc_Exact -> n = 0 -> m2 = Zpos mx) /\
    ((e = ex + n /\ Zpos m = m2) \/ (e = ex + n + 1 /\ 2 * Zpos m = m2)).
Proof.
  intros n Hn He Hmax.
  destruct (shr_fexp_normal mx ex lx Hn He) as (r & Hr & Hm & H0).
  fold n in Hr, Hm, H0.
  pose proof (top_digits_bounds mx Hn) as Hb. fold n in Hb.
  unfold binary_round_aux. rewrite Hr.
  set (m2 := round_nearest_even (shr_m r) (loc_of_shr_record r)).
  assert (Hm2 : m2 = Zpos mx / 2 ^ n \/ m2 = Zpos mx / 2 ^ n + 1).
  { unfold m2. rewrite <- Hm. apply round_nearest_even_cases. }
  assert (Hex : lx = loc_Exact -> n = 0 -> m2 = Zpos mx).
  { intros -> Hn0. unfold m2. rewrite (H0 Hn0). reflexivity. }
  assert (Hpos : 0 < m2) by lia.
  destruct m2 as [|pm2|pm2] eqn:Em2; [lia| |lia].
  destruct (Z_lt_le_dec (Zpos pm2) (2 ^ 53)) as [Hlt|Hge].
  - assert (Hd : Zpos (digits2_pos pm2) = 53)
      by (apply digits2_pos_unique; change (53 - 1) with 52; lia).
    destruct (shr_fexp_normal pm2 (ex + n) loc_Exact) as (r' & Hr' & Hm' & H0');
      [lia | lia |].
    rewrite Hd in Hr', Hm', H0'. change (53 - 53) with 0 in Hr', Hm', H0'.
    rewrite Hr'. rewrite Hm', Z.div_1_r.
    replace (ex + n + 0 <=? emax - prec) with true
      by (symmetry; apply Z.leb_le; unfold emax, prec; lia).
    exists pm2, (ex + n + 0), (Zpos pm2).
    split; [reflexivity|]. split; [lia|]. split; [exact Hm2|].
    split; [exact Hex|]. left. split; [lia | reflexivity].
  - assert (E53 : Zpos pm2 = 2 ^ 53) by lia.
    assert (Hd : Zpos (digits2_pos pm2) = 54).
    { apply digits2_pos_unique. rewrite E53. change (54 - 1) with 53.
      split; [lia|]. apply Z.pow_lt_mono_r; lia. }
    destruct (shr_fexp_normal pm2 (ex + n) loc_Exact) as (r' & Hr' & Hm' & H0');
      [lia | lia |].
    rewrite Hd in Hr', Hm', H0'. change (54 - 53) with 1 in Hr', Hm', H0'.
    rewrite Hr'. rewrite Hm', E53.
    change (2 ^ 53 / 2 ^ 1) with (Zpos (2 ^ 52)).
    replace (ex + n + 1 <=? emax - prec) with true
      by (symmetry; apply Z.leb_le; unfold emax, prec; lia).
    exists (2 ^ 52)%positive, (ex + n + 1), (Zpos pm2).
    split; [reflexivity|].
    split; [split; [reflexivity | reflexivity]|].
    split; [exact Hm2|]. split; [exact Hex|].
    right. split; [reflexivity|]. rewrite E53. reflexivity.
Qed.

(** ** The value of a float, and faithful rounding *)

(** 2^-52 *)
Definition eps : Q := 1 # 4503599627370496.

Lemma pow2_Q (n : Z) : 0 <= n -> (inject_Z (2 ^ n) == 2 ^ n)%Q.
Proof. intros Hn. rewrite Zpower_Qpower by exact Hn. reflexivity. Qed.

Lemma pow2_Q_pos (e : Z) : (0 < 2 ^ e)%Q.
Proof. apply Qpower_0_lt. reflexivity. Qed.

Lemma pow2_Q_add (a b : Z) : (2 ^ (a + b) == 2 ^ a * 2 ^ b)%Q.
Proof. apply Qpower_plus. discriminate. Qed.

Lemma round_faithful (mx : positive) (ex : Z) (lx : location) (v : Q) :
  let n := Zpos (digits2_pos mx) - 53 in
  0 <= n -> -1074 <= ex + n -> ex + n < 971 ->
  (inject_Z (Zpos mx) * 2 ^ ex <= v)%Q ->
  (v < (inject_Z (Zpos mx) + 1) * 2 ^ ex)%Q ->
  exists (m : positive) (e : Z),
    binary_round_aux prec emax false (Zpos mx) ex lx = S754_finite false m e /\
    2 ^ 52 <= Zpos m < 2 ^ 53 /\
    ex + n <= e <= ex + n + 1 /\
    (v * (1 - eps) <= inject_Z (Zpos m) * 2 ^ e)%Q /\
    (inject_Z (Zpos m) * 2 ^ e <= v * (1 + eps))%Q.
Proof.
  intros n Hn He Hmax Hlo Hhi.
  destruct (binary_round_aux_normal mx ex lx Hn He Hmax)
    as (m & e & m2 & Hr & Hmb & Hm2 & _ & Hme).
  fold n in Hm2, Hme.
  exists m, e. split; [exact Hr|]. split; [exact Hmb|].
  split; [lia|].
  pose proof (top_digits_bounds mx Hn) as Hb. fold n in Hb.
  set (m1 := Zpos mx / 2 ^ n) in *.
  assert (Hp : 0 < 2 ^ n) by (apply Z.pow_pos_nonneg; lia).
  assert (H1 : m1 * 2 ^ n <= Zpos mx).
  { unfold m1. rewrite Z.mul_comm. apply Z.mul_div_le. exact Hp. }
  assert (H2 : Zpos mx + 1 <= (m1 + 1) * 2 ^ n).
  { unfold m1. pose proof (Z.mod_pos_bound (Zpos mx) (2 ^ n) Hp).
    pose proof (Z.div_mod (Zpos mx) (2 ^ n)). lia. }
  rewrite Zle_Qle in H1, H2.
  rewrite inject_Z_mult in H1. rewrite inject_Z_mult, !inject_Z_plus in H2.
  assert (H3 : (inject_Z (2 ^ 52) <= inject_Z m1)%Q) by (rewrite <- Zle_Qle; lia).
  assert (HE : (0 < 2 ^ ex)%Q) by apply pow2_Q_pos.
  assert (HP : (0 < inject_Z (2 ^ n))%Q) by (rewrite <- (Zlt_Qlt 0); exact Hp).
  assert (Hval : (inject_Z (Zpos m) * 2 ^ e ==
                  inject_Z m2 * (2 ^ ex * inject_Z (2 ^ n)))%Q).
  { destruct Hme as [[-> <-]|[-> <-]].
    - rewrite pow2_Q_add, pow2_Q by lia. reflexivity.
    - rewrite !pow2_Q_add, pow2_Q by lia. rewrite inject_Z_mult.
      change (inject_Z 2) with 2%Q. change (2 ^ 1)%Q with 2%Q. ring. }
  rewrite Hval. clear Hval Hr Hme.
  change (inject_Z (2 ^ 52)) with (4503599627370496%Q) in H3.
  change (inject_Z 1) with 1%Q in H2.
  set (X := inject_Z (Zpos mx)) in *.
  set (M1 := inject_Z m1) in *.
  set (P := inject_Z (2 ^ n)) in *.
  set (E := (2 ^ ex)%Q) in *.
  assert (K1 : (0 <= (X - M1 * P) * E)%Q) by (apply Qmult_le_0_compat; lra).
  assert (K2 : (0 <= ((M1 + 1) * P - (X + 1)) * E)%Q)
    by (apply Qmult_le_0_compat; lra).
  assert (K3 : (0 <= (M1 - 4503599627370496) * (E * P))%Q).
  { apply Qmult_le_0_compat; [lra|]. apply Qlt_le_weak.
    apply Qmult_lt_0_compat; assumption. }
  assert (K4 : (0 < E * P)%Q) by (apply Qmult_lt_0_compat; assumption).
  unfold eps.
  destruct Hm2 as [-> | ->].
  - fold M1. split; lra.
  - rewrite inject_Z_plus. fold M1. change (inject_Z 1) with 1%Q. split; lra.
Qed.

Lemma round_exact (mx : positive) (ex : Z) :
  Zpos (digits2_pos mx) = 53 -> -1074 <= ex -> ex < 971 ->
  binary_round_aux prec emax false (Zpos mx) ex loc_Exact = S754_finite false mx ex.
Proof.
  intros Hd He Hmax.
  destruct (binary_round_aux_normal mx ex loc_Exact)
    as (m & e & m2 & Hr & Hmb & _ & Hex & Hme); try (rewrite Hd; lia).
  rewrite Hd in Hex, Hme. change (53 - 53) with 0 in Hex, Hme.
  specialize (Hex eq_refl eq_refl). subst m2.
  pose proof (digits2_pos_bounds mx) as Hbx. rewrite Hd in Hbx.
  change (53 - 1) with 52 in Hbx.
  destruct Hme as [[-> Hm]|[_ Hm]]; [|lia].
  rewrite Hr. injection Hm as ->. f_equal. lia.
Qed.

Definition SF2Q (f : spec_float) : Q :=
  match f with
  | S754_finite s m e =>
      ((if s then - inject_Z (Zpos m) else inject_Z (Zpos m)) * 2 ^ e)%Q
  | _ => 0%Q
  end.

Definition float_value (x : float) : Q := SF2Q (Prim2SF x).

(** [x] is a positive normal number of mantissa [m] and exponent [e]. *)
Definition normal_pos (x : float) (m : positive) (e : Z) : Prop :=
  Prim2SF x = S754_finite false m e /\ Zpos (digits2_pos m) = 53.

Lemma normal_pos_value x m e :
  normal_pos x m e -> (float_value x == inject_Z (Zpos m) * 2 ^ e)%Q.
Proof. intros [Hx _]. unfold float_value. rewrite Hx. reflexivity. Qed.

Lemma normal_pos_bounds x m e :
  normal_pos x m e -> 2 ^ 52 <= Zpos m < 2 ^ 53.
Proof.
  intros [_ Hd]. pose proof (digits2_pos_bounds m) as Hb.
  rewrite Hd in Hb. exact Hb.
Qed.

Lemma digits_53 (m : positive) :
  2 ^ 52 <= Zpos m < 2 ^ 53 -> Zpos (digits2_pos m) = 53.
Proof. intros Hb. apply digits2_pos_unique. exact Hb. Qed.

Lemma digits_range (m : positive) (a b : Z) :
  0 <= a -> 2 ^ a <= Zpos m < 2 ^ b -> a < Zpos (digits2_pos m) <= b.
Proof.
  intros Ha [Hl Hu].
  pose proof (digits2_pos_bounds m) as [Hl' Hu'].
  set (d := Zpos (digits2_pos m)) in *.
  assert (Hd : 0 < d) by (unfold d; lia).
  split.
  - destruct (Z_lt_le_dec a d) as [|Hn]; [assumption|exfalso].
    assert (2 ^ d <= 2 ^ a) by (apply Z.pow_le_mono_r; lia). lia.
  - destruct (Z_lt_le_dec b d) as [Hn|]; [exfalso|assumption].
    assert (2 ^ b <= 2 ^ (d - 1)) by (apply Z.pow_le_mono_r; lia). lia.
Qed.

(** ** Multiplication *)

Lemma mul_faithful (x y : float) mx ex my ey :
  normal_pos x mx ex -> normal_pos y my ey ->
  -1126 <= ex + ey -> ex + ey < 917 ->
  exists m e,
    normal_pos (x * y)%float m e /\
    ex + ey + 52 <= e <= ex + ey + 54 /\
    (float_value x * float_value y * (1 - eps) <= float_value (x * y)%float)%Q /\
    (float_value (x * y)%float <= float_value x * float_value y * (1 + eps))%Q.
Proof.
  intros Hx Hy Hlo Hhi.
  pose proof (normal_pos_bounds _ _ _ Hx) as Bx.
  pose proof (normal_pos_bounds _ _ _ Hy) as By.
  pose proof (normal_pos_value _ _ _ Hx) as Vx.
  pose proof (normal_pos_value _ _ _ Hy) as Vy.
  destruct Hx as [Hx _], Hy as [Hy _].
  assert (Hprod : 2 ^ 104 <= Zpos (mx * my) < 2 ^ 106).
  { rewrite Pos2Z.inj_mul.
    change (2 ^ 104) with (2 ^ 52 * 2 ^ 52). change (2 ^ 106) with (2 ^ 53 * 2 ^ 53).
    split; [apply Z.mul_le_mono_nonneg; lia | apply Z.mul_lt_mono_nonneg; lia]. }
  pose proof (digits_range (mx * my) 104 106 ltac:(lia) Hprod) as Hd.
  destruct (round_faithful (mx * my) (ex + ey) loc_Exact
              (inject_Z (Zpos mx) * 2 ^ ex * (inject_Z (Zpos my) * 2 ^ ey))%Q)
    as (m & e & Hr & Hm & He & Hv1 & Hv2); try lia.
  { rewrite Pos2Z.inj_mul, inject_Z_mult, pow2_Q_add.
    apply Qle_lteq. right. ring. }
  { rewrite Pos2Z.inj_mul, inject_Z_mult, pow2_Q_add.
    pose proof (pow2_Q_pos ex). pose proof (pow2_Q_pos ey).
    assert (0 < 2 ^ ex * 2 ^ ey)%Q by (apply Qmult_lt_0_compat; assumption).
    lra. }
  assert (Hmul : Prim2SF (x * y)%float = S754_finite false m e).
  { rewrite mul_spec, Hx, Hy. unfold SF64mul, SFmul. cbn [xorb]. exact Hr. }
  exists m, e. split; [split; [exact Hmul | apply digits_53; exact Hm]|].
  split; [lia|].
  assert (Vm : (float_value (x * y)%float == inject_Z (Zpos m) * 2 ^ e)%Q)
    by (unfold float_value; rewrite Hmul; reflexivity).
  rewrite Vm, Vx, Vy. split; assumption.
Qed.

(** ** Division *)

Lemma SFdiv_core_normal (mx my : positive) (ex ey : Z) :
  Zpos (digits2_pos mx) = 53 -> Zpos (digits2_pos my) = 53 ->
  -1074 <= ex - ey - 53 ->
  SFdiv_core_binary prec emax (Zpos mx) ex (Zpos my) ey =
  (Zpos mx * 2 ^ 53 / Zpos my, ex - ey - 53,
   new_location (Zpos my) ((Zpos mx * 2 ^ 53) mod Zpos my)).
Proof.
  intros Hdx Hdy He.
  unfold SFdiv_core_binary, fexp, SpecFloat.emin, prec, emax.
  cbn [Zdigits2]. rewrite Hdx, Hdy.
  replace (Z.min (Z.max (53 + ex - (53 + ey) - 53) (3 - 1024 - 53)) (ex - ey))
    with (ex - ey - 53) by lia.
  replace (ex - ey - (ex - ey - 53)) with 53 by lia.
  cbv iota beta. rewrite Z.shiftl_mul_pow2 by lia.
  unfold Z.div, Z.modulo.
  destruct (Z.div_eucl (Zpos mx * 2 ^ 53) (Zpos my)) as [q r].
  reflexivity.
Qed.

Lemma div_faithful (x y : float) mx ex my ey :
  normal_pos x mx ex -> normal_pos y my ey ->
  -1021 <= ex - ey -> ex - ey < 1022 ->
  exists m e,
    normal_pos (x / y)%float m e /\
    ex - ey - 53 <= e <= ex - ey - 51 /\
    (float_value x / float_value y * (1 - eps) <= float_value (x / y)%float)%Q /\
    (float_value (x / y)%float <= float_value x / float_value y * (1 + eps))%Q.
Proof.
  intros Hx Hy Hlo Hhi.
  pose proof (normal_pos_bounds _ _ _ Hx) as Bx.
  pose proof (normal_pos_bounds _ _ _ Hy) as By.
  pose proof (normal_pos_value _ _ _ Hx) as Vx.
  pose proof (normal_pos_value _ _ _ Hy) as Vy.
  destruct Hx as [Hx Dx], Hy as [Hy Dy].
  set (q := Zpos mx * 2 ^ 53 / Zpos my).
  assert (Hq1 : q * Zpos my <= Zpos mx * 2 ^ 53).
  { unfold q. rewrite Z.mul_comm. apply Z.mul_div_le. lia. }
  assert (Hq2 : Zpos mx * 2 ^ 53 + 1 <= (q + 1) * Zpos my).
  { unfold q. pose proof (Z.mod_pos_bound (Zpos mx * 2 ^ 53) (Zpos my) ltac:(lia)).
    pose proof (Z.div_mod (Zpos mx * 2 ^ 53) (Zpos my)). lia. }
  assert (Hqb : 2 ^ 52 <= q < 2 ^ 54).
  { unfold q. split.
    - apply Z.div_le_lower_bound; [lia|].
      change (2 ^ 53) with (2 * 2 ^ 52) in *. nia.
    - apply Z.div_lt_upper_bound; [lia|].
      change (2 ^ 54) with (2 * 2 ^ 53). nia. }
  destruct q as [|pq|pq] eqn:Eq; [lia| |lia].
  pose proof (digits_range pq 52 54 ltac:(lia) Hqb) as Hd.
  set (vx := (inject_Z (Zpos mx) * 2 ^ ex)%Q) in *.
  set (vy := (inject_Z (Zpos my) * 2 ^ ey)%Q) in *.
  assert (Hvy : (0 < vy)%Q).
  { unfold vy. apply Qmult_lt_0_compat; [|apply pow2_Q_pos].
    rewrite <- (Zlt_Qlt 0). lia. }
  (* the exact quotient, scaled to the exponent of the integer quotient *)
  assert (Hcell : (inject_Z (Zpos pq) * 2 ^ (ex - ey - 53) <= vx / vy /\
                   vx / vy < (inject_Z (Zpos pq) + 1) * 2 ^ (ex - ey - 53))%Q).
  { rewrite Zle_Qle in Hq1. rewrite Zle_Qle in Hq2.
    rewrite !inject_Z_mult in Hq1.
    rewrite inject_Z_mult, !inject_Z_plus, inject_Z_mult in Hq2.
    change (inject_Z (2 ^ 53)) with (2 ^ 53)%Q in Hq1, Hq2.
    change (inject_Z 1) with 1%Q in Hq2.
    assert (Hs : (2 ^ ex == 2 ^ (ex - ey - 53) * 2 ^ 53 * 2 ^ ey)%Q).
    { rewrite <- !pow2_Q_add. replace (ex - ey - 53 + 53 + ey) with ex by lia.
      reflexivity. }
    pose proof (pow2_Q_pos (ex - ey - 53)) as HE.
    pose proof (pow2_Q_pos ey) as HEy.
    assert (HY : (0 < inject_Z (Zpos my))%Q) by (rewrite <- (Zlt_Qlt 0); lia).
    set (E := (2 ^ (ex - ey - 53))%Q) in *.
    set (X := inject_Z (Zpos mx)) in *.
    set (Y := inject_Z (Zpos my)) in *.
    set (Qq := inject_Z (Zpos pq)) in *.
    assert (Hquo : (vx / vy == X * 2 ^ 53 / Y * E)%Q).
    { unfold vx, vy. rewrite Hs. field. split; lra. }
    rewrite Hquo.
    assert (K1 : (Qq <= X * 2 ^ 53 / Y)%Q).
    { apply Qle_shift_div_l; [exact HY | exact Hq1]. }
    assert (K2 : (X * 2 ^ 53 / Y < Qq + 1)%Q).
    { apply Qlt_shift_div_r; [exact HY|]. lra. }
    split.
    - apply Qmult_le_compat_r; [exact K1 | lra].
    - apply Qmult_lt_compat_r; [exact HE | exact K2]. }
  destruct Hcell as [Hc1 Hc2].
  destruct (round_faithful pq (ex - ey - 53)
              (new_location (Zpos my) ((Zpos mx * 2 ^ 53) mod Zpos my))
              (vx / vy)%Q)
    as (m & e & Hr & Hm & He & Hv1 & Hv2); try lia; try assumption.
  assert (Hdiv : Prim2SF (x / y)%float = S754_finite false m e).
  { rewrite div_spec, Hx, Hy. unfold SF64div, SFdiv.
    rewrite (SFdiv_core_normal mx my ex ey Dx Dy ltac:(lia)).
    fold (Zpos mx * 2 ^ 53 / Zpos my). cbn [xorb].
    change (Z.pos mx * 2 ^ 53 / Z.pos my) with q. rewrite Eq. exact Hr. }
  exists m, e. split; [split; [exact Hdiv | apply digits_53; exact Hm]|].
  split; [lia|].
  assert (Vm : (float_value (x / y)%float == inject_Z (Zpos m) * 2 ^ e)%Q)
    by (unfold float_value; rewrite Hdiv; reflexivity).
  rewrite Vm, Vx, Vy. split; assumption.
Qed.

(** ** Conversion of integers *)

Lemma iter_xO (p k : positive) : Zpos (Pos.iter xO p k) = Zpos p * 2 ^ Zpos k.
Proof.
  induction k as [|k IH] using Pos.peano_ind.
  - cbn [Pos.iter]. lia.
  - rewrite Pos.iter_succ, Pos2Z.inj_xO, IH, Pos2Z.inj_succ, Z.pow_succ_r by lia.
    ring.
Qed.

Lemma binary_round_small (p : positive) :
  Zpos p < 2 ^ 53 ->
  exists m e,
    binary_round prec emax false p 0 = S754_finite false m e /\
    Zpos (digits2_pos m) = 53 /\ -52 <= e <= 0 /\
    Zpos m = Zpos p * 2 ^ (- e).
Proof.
  intros Hp.
  pose proof (digits2_pos_bounds p) as [Hl Hu].
  assert (Hd : 0 < Zpos (digits2_pos p) <= 53).
  { split; [lia|].
    destruct (Z_lt_le_dec 53 (Zpos (digits2_pos p))) as [Hn|]; [exfalso|assumption].
    assert (2 ^ 53 <= 2 ^ (Zpos (digits2_pos p) - 1)) by (apply Z.pow_le_mono_r; lia).
    lia. }
  unfold binary_round, fexp, SpecFloat.emin, prec, emax.
  replace (Z.max (Zpos (digits2_pos p) + 0 - 53) (3 - 1024 - 53))
    with (Zpos (digits2_pos p) - 53) by lia.
  unfold shl_align.
  destruct (Zpos (digits2_pos p) - 53 - 0) as [|k|k] eqn:Ek; [|lia|].
  - assert (D : Zpos (digits2_pos p) = 53) by lia.
    exists p, 0. split; [apply (round_exact p 0 D); lia|].
    split; [exact D|]. split; [lia|]. cbn. lia.
  - set (m := Pos.iter xO p k).
    assert (Em : Zpos m = Zpos p * 2 ^ Zpos k) by apply iter_xO.
    assert (Ee : Zpos (digits2_pos p) - 53 = - Zpos k) by lia.
    assert (D : Zpos (digits2_pos m) = 53).
    { apply digits2_pos_unique. rewrite Em. change (53 - 1) with 52.
      assert (E1 : 2 ^ 52 = 2 ^ (Zpos (digits2_pos p) - 1) * 2 ^ Zpos k).
      { rewrite <- Z.pow_add_r by lia. f_equal. lia. }
      assert (E2 : 2 ^ 53 = 2 ^ Zpos (digits2_pos p) * 2 ^ Zpos k).
      { rewrite <- Z.pow_add_r by lia. f_equal. lia. }
      rewrite E1, E2.
      assert (0 < 2 ^ Zpos k) by (apply Z.pow_pos_nonneg; lia).
      split; [apply Z.mul_le_mono_nonneg_r | apply Z.mul_lt_mono_pos_r]; lia. }
    exists m, (Zpos (digits2_pos p) - 53).
    split; [apply (round_exact m _ D); lia|].
    split; [exact D|]. split; [lia|].
    rewrite Em. f_equal. f_equal. lia.
Qed.

Lemma float_of_Z_normal (p : positive) :
  Zpos p < 2 ^ 53 ->
  exists m e,
    normal_pos (float_of_Z (Zpos p)) m e /\ -52 <= e <= 0 /\
    (float_value (float_of_Z (Zpos p)) == inject_Z (Zpos p))%Q.
Proof.
  intros Hp.
  destruct (binary_round_small p Hp) as (m & e & Hr & D & He & Hm).
  assert (Hx : Prim2SF (float_of_Z (Zpos p)) = S754_finite false m e).
  { unfold float_of_Z. cbn [binary_normalize]. rewrite Hr.
    apply Prim2SF_SF2Prim.
    unfold SpecFloat.valid_binary, bounded, canonical_mantissa, fexp,
      SpecFloat.emin, prec, emax.
    rewrite D. apply andb_true_iff. split; [apply Z.eqb_eq | apply Z.leb_le]; lia. }
  exists m, e. split; [split; assumption|]. split; [exact He|].
  unfold float_value. rewrite Hx. cbn [SF2Q]. rewrite Hm, inject_Z_mult.
  rewrite pow2_Q by lia. rewrite <- Qmult_assoc, <- pow2_Q_add.
  replace (- e + e) with 0 by lia. change (2 ^ 0)%Q with 1%Q. ring.
Qed.

(** ** Comparison *)

Lemma value_lt_exp (m1 m2 : positive) (e1 e2 : Z) :
  Zpos m1 < 2 ^ 53 -> 2 ^ 52 <= Zpos m2 -> e1 < e2 ->
  (inject_Z (Zpos m1) * 2 ^ e1 < inject_Z (Zpos m2) * 2 ^ e2)%Q.
Proof.
  intros H1 H2 He.
  replace e2 with (e1 + (e2 - e1)) by lia.
  rewrite pow2_Q_add, <- (pow2_Q (e2 - e1)) by lia.
  assert (Hk : 2 <= 2 ^ (e2 - e1)).
  { change 2 with (2 ^ 1) at 1. apply Z.pow_le_mono_r; lia. }
  rewrite Zle_Qle in Hk, H2. rewrite Zlt_Qlt in H1.
  change (inject_Z 2) with 2%Q in Hk.
  change (inject_Z (2 ^ 52)) with 4503599627370496%Q in H2.
  change (inject_Z (2 ^ 53)) with 9007199254740992%Q in H1.
  pose proof (pow2_Q_pos e1) as HE.
  set (A := inject_Z (Zpos m1)) in *. set (B := inject_Z (Zpos m2)) in *.
  set (K := inject_Z (2 ^ (e2 - e1))) in *. set (E := (2 ^ e1)%Q) in *.
  assert (K1 : (0 <= (B - 4503599627370496) * (K - 2))%Q)
    by (apply Qmult_le_0_compat; lra).
  assert (K2 : (0 < (B * K - A) * E)%Q).
  { apply Qmult_lt_0_compat; [|exact HE]. lra. }
  lra.
Qed.

Lemma ltb_normal (x y : float) mx ex my ey :
  normal_pos x mx ex -> normal_pos y my ey ->
  if (x <? y)%float then (float_value x < float_value y)%Q
  else (float_value y <= float_value x)%Q.
Proof.
  intros Hx Hy.
  pose proof (normal_pos_bounds _ _ _ Hx) as Bx.
  pose proof (normal_pos_bounds _ _ _ Hy) as By.
  pose proof (normal_pos_value _ _ _ Hx) as Vx.
  pose proof (normal_pos_value _ _ _ Hy) as Vy.
  destruct Hx as [Hx _], Hy as [Hy _].
  rewrite ltb_spec, Hx, Hy. unfold SFltb, SFcompare.
  destruct (Z.compare_spec ex ey) as [E|L|G].
  - subst ey. rewrite Pos.compare_cont_spec.
    pose proof (pow2_Q_pos ex) as HE.
    destruct (Pos.compare_spec mx my) as [E|L|G]; cbn [Pos.switch_Eq];
      cbv beta iota; rewrite Vx, Vy.
    + subst my. apply Qle_refl.
    + apply Qmult_lt_compat_r; [exact HE|]. rewrite <- Zlt_Qlt. lia.
    + apply Qmult_le_compat_r; [|lra]. rewrite <- Zle_Qle. lia.
  - cbv beta iota. rewrite Vx, Vy. apply value_lt_exp; lia.
  - cbv beta iota. rewrite Vx, Vy. apply Qlt_le_weak. apply value_lt_exp; lia.
Qed.

(* ===================================================================== *)
(** * The placement of an entry image in binary64                         *)
(* ===================================================================== *)

(** The tolerance of the placement: [2^-50], four units in the last place
    of a double. *)
Definition tol : Q := 1 # 1125899906842624.

Lemma box_w_normal : normal_pos (box_w (R:=float)) 8233143068786688 (-44).
Proof. split; vm_compute; reflexivity. Qed.

Lemma box_h_normal : normal_pos (box_h (R:=float)) 5066549580791808 (-43).
Proof. split; vm_compute; reflexivity. Qed.

Lemma box_w_value : (float_value (box_w (R:=float)) == 468)%Q.
Proof. rewrite (normal_pos_value _ _ _ box_w_normal). reflexivity. Qed.

Lemma box_h_value : (float_value (box_h (R:=float)) == 576)%Q.
Proof. rewrite (normal_pos_value _ _ _ box_h_normal). reflexivity. Qed.

(** The builtin [min] of two positive normal numbers is one of them and is
    below both. *)
Lemma py_min_normal (a b : float) ma ea mb eb :
  normal_pos a ma ea -> normal_pos b mb eb ->
  exists m e,
    normal_pos (py_min a b) m e /\
    Z.min ea eb <= e <= Z.max ea eb /\
    (float_value (py_min a b) <= float_value a)%Q /\
    (float_value (py_min a b) <= float_value b)%Q /\
    (py_min a b = a \/ py_min a b = b).
Proof.
  intros Ha Hb. pose proof (ltb_normal b a _ _ _ _ Hb Ha) as Hlt.
  unfold py_min. cbn [flt binary64].
  destruct (b <? a)%float.
  - exists mb, eb. split; [exact Hb|]. split; [lia|].
    split; [apply Qlt_le_weak; exact Hlt|]. split; [apply Qle_refl | auto].
  - exists ma, ea. split; [exact Ha|]. split; [lia|].
    split; [apply Qle_refl|]. split; [exact Hlt | auto].
Qed.

(** The scale and the drawn size of an image of [pw] x [ph] pixels. *)
Lemma drawn_size_binary64 (pw ph : positive) :
  Zpos pw < 2 ^ 53 -> Zpos ph < 2 ^ 53 ->
  forall scale draw_w draw_h : float,
  scale = py_min (fdiv box_w (of_int (Zpos pw))) (fdiv box_h (of_int (Zpos ph))) ->
  draw_w = mul_int (Zpos pw) scale ->
  draw_h = mul_int (Zpos ph) scale ->
  (0 < float_value draw_w /\ float_value draw_w <= 468 * (1 + tol) /\
   0 < float_value draw_h /\ float_value draw_h <= 576 * (1 + tol) /\
   Qabs (float_value draw_w * inject_Z (Zpos ph) -
         float_value draw_h * inject_Z (Zpos pw)) <=
     tol * (float_value draw_h * inject_Z (Zpos pw)))%Q.
Proof.
  intros Hw Hh scale draw_w draw_h Es Ew Eh.
  destruct (float_of_Z_normal pw Hw) as (mw & ew & Nw & Rw & Vw).
  destruct (float_of_Z_normal ph Hh) as (mh & eh & Nh & Rh & Vh).
  destruct (div_faithful _ _ _ _ _ _ box_w_normal Nw) as (ma & ea & Na & Ra & La & Ua);
    [lia | lia |].
  destruct (div_faithful _ _ _ _ _ _ box_h_normal Nh) as (mb & eb & Nb & Rb & Lb & Ub);
    [lia | lia |].
  destruct (py_min_normal _ _ _ _ _ _ Na Nb) as (ms & es & Ns & Rs & Sa & Sb & Sc).
  cbn [of_int fdiv binary64] in Es. rewrite <- Es in Ns, Sa, Sb, Sc.
  unfold mul_int in Ew, Eh. cbn [of_int fmul binary64] in Ew, Eh.
  destruct (mul_faithful _ _ _ _ _ _ Nw Ns) as (m1 & e1 & N1 & R1 & L1 & U1);
    [lia | lia |].
  destruct (mul_faithful _ _ _ _ _ _ Nh Ns) as (m2 & e2 & N2 & R2 & L2 & U2);
    [lia | lia |].
  rewrite <- Ew in L1, U1. rewrite <- Eh in L2, U2.
  rewrite Vw in L1, U1, La, Ua. rewrite Vh in L2, U2, Lb, Ub.
  rewrite box_w_value in La, Ua. rewrite box_h_value in Lb, Ub.
  assert (Pw : (0 < inject_Z (Zpos pw))%Q) by (rewrite <- (Zlt_Qlt 0); lia).
  assert (Ph : (0 < inject_Z (Zpos ph))%Q) by (rewrite <- (Zlt_Qlt 0); lia).
  set (a := inject_Z (Zpos pw)) in *. set (b := inject_Z (Zpos ph)) in *.
  set (S := float_value scale) in *.
  set (A := float_value (box_w / float_of_Z (Zpos pw))%float) in *.
  set (B := float_value (box_h / float_of_Z (Zpos ph))%float) in *.
  set (DW := float_value draw_w) in *. set (DH := float_value draw_h) in *.
  assert (Ta : (a * (468 / a) == 468)%Q) by (field; lra).
  assert (Tb : (b * (576 / b) == 576)%Q) by (field; lra).
  assert (Ia : (0 < 468 / a)%Q) by (apply Qlt_shift_div_l; lra).
  assert (Ib : (0 < 576 / b)%Q) by (apply Qlt_shift_div_l; lra).
  unfold eps in *.
  assert (HS : (0 < S)%Q).
  { destruct Sc as [E|E].
    - assert (S == A)%Q by (unfold S, A; rewrite E; reflexivity). lra.
    - assert (S == B)%Q by (unfold S, B; rewrite E; reflexivity). lra. }
  assert (HaA : (a * A <= 468 * (1 + (1 # 4503599627370496)))%Q).
  { rewrite <- Ta at 1. rewrite <- Qmult_assoc.
    apply Qmult_le_l; [exact Pw | exact Ua]. }
  assert (HbB : (b * B <= 576 * (1 + (1 # 4503599627370496)))%Q).
  { rewrite <- Tb at 1. rewrite <- Qmult_assoc.
    apply Qmult_le_l; [exact Ph | exact Ub]. }
  assert (HaS : (a * S <= a * A)%Q) by (apply Qmult_le_l; assumption).
  assert (HbS : (b * S <= b * B)%Q) by (apply Qmult_le_l; assumption).
  assert (PaS : (0 < a * S)%Q) by (apply Qmult_lt_0_compat; assumption).
  assert (PbS : (0 < b * S)%Q) by (apply Qmult_lt_0_compat; assumption).
  unfold tol.
  split; [lra|]. split; [lra|]. split; [lra|]. split; [lra|].
  (* the aspect ratio *)
  assert (X1 : (a * S * (1 - (1 # 4503599627370496)) * b <= DW * b)%Q)
    by (apply Qmult_le_compat_r; lra).
  assert (X2 : (DW * b <= a * S * (1 + (1 # 4503599627370496)) * b)%Q)
    by (apply Qmult_le_compat_r; lra).
  assert (Y1 : (b * S * (1 - (1 # 4503599627370496)) * a <= DH * a)%Q)
    by (apply Qmult_le_compat_r; lra).
  assert (Y2 : (DH * a <= b * S * (1 + (1 # 4503599627370496)) * a)%Q)
    by (apply Qmult_le_compat_r; lra).
  assert (PP : (0 < a * S * b)%Q) by (apply Qmult_lt_0_compat; assumption).
  apply Qabs_Qle_condition.
  set (X := (DW * b)%Q) in *. set (Y := (DH * a)%Q) in *.
  set (P := (a * S * b)%Q) in *.
  assert (Y1' : (P * (1 - (1 # 4503599627370496)) <= Y)%Q).
  { eapply Qle_trans; [|exact Y1]. apply Qle_lteq. right. unfold P. ring. }
  assert (Y2' : (Y <= P * (1 + (1 # 4503599627370496)))%Q).
  { eapply Qle_trans; [exact Y2|]. apply Qle_lteq. right. unfold P. ring. }
  assert (X1' : (P * (1 - (1 # 4503599627370496)) <= X)%Q).
  { eapply Qle_trans; [|exact X1]. apply Qle_lteq. right. unfold P. ring. }
  assert (X2' : (X <= P * (1 + (1 # 4503599627370496)))%Q).
  { eapply Qle_trans; [exact X2|]. apply Qle_lteq. right. unfold P. ring. }
  clearbody X Y P. split; lra.
Qed.

Section EntryPlacement.

Variable acc : png_encoder.

(** C3 as the code has it, in the binary64 arithmetic of the program.  In
    a document that was returned, the page of every entry draws the
    entry's image once, after the logo if there is one.  The image has
    positive width and height, and for dimensions below [2^53] the
    rectangle is computed as the claim says: [scale] is the smaller of
    [box_w / iw] and [box_h / ih], the drawn size is [iw * scale] by
    [ih * scale], and the corner is at
    [x = margin_x + (box_w - draw_w) / 2],
    [y = 1.2 * inch + (box_h - draw_h) / 2], every operation being the one
    on doubles.  The content box is 468 by 576 points.  As real numbers the
    drawn width and height are positive and exceed the box by at most the
    rounding error, a relative [2^-50]; the ratio of drawn width to drawn
    height differs from the ratio of the image by at most a relative
    [2^-50]. *)
Theorem entry_image_placement today logo images title subtitle footer
  (doc : Document float) i name img :
  build_catalog_pdf (R:=float) acc today logo images title subtitle footer =
    Ok doc ->
  nth_error images i = Some (name, img) ->
  (width img < 2 ^ 53)%N -> (height img < 2 ^ 53)%N ->
  exists p ir x y draw_w draw_h scale,
    nth_error (doc_pages doc) (S i) = Some p /\
    nth_error p (match logo with Some _ => 5 | None => 4 end) =
      Some (DrawImage ir x y draw_w draw_h "auto") /\
    img_to_reader acc img = Ok ir /\
    (0 < width img)%N /\ (0 < height img)%N /\
    scale = py_min (fdiv box_w (of_int (Z.of_N (width img))))
                   (fdiv box_h (of_int (Z.of_N (height img)))) /\
    draw_w = mul_int (Z.of_N (width img)) scale /\
    draw_h = mul_int (Z.of_N (height img)) scale /\
    x = (margin_x + fdiv (box_w - draw_w) (of_int 2))%py /\
    y = (lit 12 10 * inch + fdiv (box_h - draw_h) (of_int 2))%py /\
    (float_value box_w == 468 /\ float_value box_h == 576 /\
     0 < float_value draw_w /\
     float_value draw_w <= float_value box_w * (1 + tol) /\
     0 < float_value draw_h /\
     float_value draw_h <= float_value box_h * (1 + tol) /\
     Qabs (float_value draw_w * inject_Z (Z.of_N (height img)) -
           float_value draw_h * inject_Z (Z.of_N (width img))) <=
       tol * (float_value draw_h * inject_Z (Z.of_N (width img))))%Q.
Proof.
  intros Hdoc Hi Hw Hh. rewrite build_catalog_pdf_eq in Hdoc.
  apply catalog_document_ok_inv in Hdoc.
  destruct Hdoc as (lr & ps & Hlr & Hps & ->).
  destruct (entry_page_of_document acc lr footer images ps Hps i name img Hi)
    as (Hne & Hp).
  assert (Hdims : (0 < width img)%N /\ (0 < height img)%N).
  { unfold is_empty in Hne. apply orb_false_iff in Hne.
    destruct Hne as [H1 H2]. apply N.eqb_neq in H1, H2. lia. }
  destruct Hdims as [Pw Ph].
  set (scale := py_min (fdiv box_w (of_int (Z.of_N (width img))))
                       (fdiv box_h (of_int (Z.of_N (height img))))).
  set (draw_w := mul_int (Z.of_N (width img)) scale).
  set (draw_h := mul_int (Z.of_N (height img)) scale).
  exists (entry_ops lr footer (N.of_nat (S i)) name (mk_reader (flattened img))
                    (fit_rect (width img) (height img))),
         (mk_reader (flattened img)),
         (margin_x + fdiv (box_w - draw_w) (of_int 2))%py,
         (lit 12 10 * inch + fdiv (box_h - draw_h) (of_int 2))%py,
         draw_w, draw_h, scale.
  split; [exact Hp|].
  split.
  { unfold logo_reader in Hlr.
    destruct logo as [l|].
    - destruct (img_to_reader acc l) as [r|e]; [|discriminate].
      simpl in Hlr. injection Hlr as <-. reflexivity.
    - injection Hlr as <-. reflexivity. }
  split; [exact (img_to_reader_nonempty acc img Hne)|].
  split; [exact Pw|]. split; [exact Ph|].
  do 5 (split; [reflexivity|]).
  split; [exact box_w_value|]. split; [exact box_h_value|].
  destruct (width img) as [|pw] eqn:Ew; [lia|].
  destruct (height img) as [|ph] eqn:Eh; [lia|].
  assert (Bw : Zpos pw < 2 ^ 53) by lia.
  assert (Bh : Zpos ph < 2 ^ 53) by lia.
  pose proof (drawn_size_binary64 pw ph Bw Bh scale draw_w draw_h
                eq_refl eq_refl eq_refl) as (D1 & D2 & D3 & D4 & D5).
  rewrite box_w_value, box_h_value. cbn [Z.of_N].
  repeat split; assumption.
Qed.

End EntryPlacement.

(* ===================================================================== *)
(** * Concrete runs                                                       *)
(* ===================================================================== *)

Definition demo_date : date := mk_date 2026 11 3.

(** A 20 x 10 image with transparency and an opaque 10 x 20 image. *)
Definition demo_a : Image :=
  mk_Image (20, 10)%N (Px_RGBA (repeat (10, 20, 30, 128) 200)).
Definition demo_b : Image :=
  mk_Image (10, 20)%N (Px_RGBA (repeat (200, 100, 50, 255) 200)).
Definition demo_entries : list (string * Image) :=
  [("a.jpg", demo_a); ("b.png", demo_b)].

(** A logo of two pixels, one transparent and one opaque. *)
Definition demo_logo : Image :=
  mk_Image (2, 1)%N (Px_RGBA [(0, 0, 0, 0); (1, 2, 3, 255)]).

Definition small_img : Image :=
  mk_Image (2, 1)%N (Px_RGBA [(10, 20, 30, 128); (1, 2, 3, 255)]).

(** An image of zero width. *)
Definition empty_img : Image := mk_Image (0, 5)%N (Px_RGBA []).

(** The document of a one-entry catalog with a logo, in exact arithmetic. *)
Definition small_doc : Document Q :=
  Eval vm_compute in
    match build_catalog_pdf (R:=Q) pillow_12 demo_date (Some demo_logo)
                            [("a.jpg", small_img)] "T" "S" "F" with
    | Ok d => d
    | Raise _ => mk_Document None []
    end.

(** The same catalog in binary64. *)
Definition small_doc64 : Document float :=
  Eval vm_compute in
    match build_catalog_pdf (R:=float) pillow_12 demo_date (Some demo_logo)
                            [("a.jpg", small_img)] "T" "S" "F" with
    | Ok d => d
    | Raise _ => mk_Document None []
    end.

Definition small_rect : Q * Q * Q * Q :=
  Eval vm_compute in fit_rect (R:=Q) 2 1.

(** An archive of four entries, one of them a directory and one a text
    file; every entry holds the bytes it is opened from. *)
Definition demo_zip (b : bytes) : result ZipFile :=
  Ok [("b.png", Ok b); ("notes.txt", Ok b); ("img/", Ok []); ("a.JPG", Ok b)].

Definition UnidentifiedImageError : exn :=
  mk_exn "UnidentifiedImageError" "cannot identify image file".

(** A stand-in for the decoder: it rejects the empty byte string and reads
    any other as one grey pixel, of level 7. *)
Definition demo_decoder (data : bytes) : result Z :=
  match data with
  | [] => Raise UnidentifiedImageError
  | _ :: _ => Ok 7
  end.

Definition demo_convert (level : Z) : result rgba_image :=
  Ok (mk_rgba (1, 1)%N [(level, level, level, 255)]).

(** An archive whose second image entry is empty. *)
Definition broken_zip (b : bytes) : result ZipFile :=
  Ok [("b.png", Ok []); ("a.png", Ok b)].

(** An archive with two entries of one name, the first of them empty. *)
Definition shadowed_zip (b : bytes) : result ZipFile :=
  Ok [("a.png", Ok []); ("a.png", Ok b)].

Lemma build_catalog_pdf_pages_witness :
  exists (doc : Document Q) p1 p2,
    build_catalog_pdf pillow_12 demo_date None demo_entries "T" "S" "F" = Ok doc /\
    List.length (doc_pages doc) = 3%nat /\
    nth_error (doc_pages doc) 1 = Some p1 /\
    nth_error (doc_pages doc) 2 = Some p2 /\
    nth_error p1 1 =
      Some (DrawString (lit 10 10 * inch)%py (H - lit 10 10 * inch)%py
                       "Design 01") /\
    nth_error p1 3 =
      Some (DrawString (lit 10 10 * inch)%py (H - lit 125 100 * inch)%py
                       "Source: a.jpg") /\
    nth_error p2 1 =
      Some (DrawString (lit 10 10 * inch)%py (H - lit 10 10 * inch)%py
                       "Design 02") /\
    nth_error p2 3 =
      Some (DrawString (lit 10 10 * inch)%py (H - lit 125 100 * inch)%py
                       "Source: b.png").
Proof.
  destruct (build_catalog_pdf_pages (R:=Q) pillow_12 demo_date None demo_entries
              "T" "S" "F" eq_refl) as (doc & lr & Hd & Hl & _ & He).
  destruct (He 0%nat "a.jpg" demo_a eq_refl) as (p1 & Hp1 & _ & Hh1 & Hs1 & _).
  destruct (He 1%nat "b.png" demo_b eq_refl) as (p2 & Hp2 & _ & Hh2 & Hs2 & _).
  exists doc, p1, p2.
  split; [exact Hd|]. split; [exact Hl|].
  split; [exact Hp1|]. split; [exact Hp2|].
  split; [exact Hh1|]. split; [exact Hs1|].
  split; [exact Hh2 | exact Hs2].
Defined.


Lemma entry_image_placement_witness :
  exists p ir x y draw_w draw_h,
    nth_error (doc_pages small_doc64) 1 = Some p /\
    nth_error p 5 = Some (DrawImage ir x y draw_w draw_h "auto") /\
    img_to_reader pillow_12 small_img = Ok ir /\
    draw_w = 468%float /\ draw_h = 234%float /\ x = 72%float /\
    (float_value draw_w <= float_value (box_w (R:=float)) * (1 + tol) /\
     float_value draw_h <= float_value (box_h (R:=float)) * (1 + tol) /\
     Qabs (float_value draw_w * inject_Z 1 - float_value draw_h * inject_Z 2) <=
       tol * (float_value draw_h * inject_Z 2))%Q.
Proof.
  destruct (entry_image_placement pillow_12 demo_date (Some demo_logo)
              [("a.jpg", small_img)] "T" "S" "F" small_doc64 0 "a.jpg" small_img)
    as (p & ir & x & y & draw_w & draw_h & scale & Hp & Hop & Hir & _ & _ &
        Hs & Hw & Hh & Hx & _ & _ & _ & _ & Bw & _ & Bh & Hr).
  - vm_compute. reflexivity.
  - reflexivity.
  - vm_compute. reflexivity.
  - vm_compute. reflexivity.
  - exists p, ir, x, y, draw_w, draw_h.
    split; [exact Hp|]. split; [exact Hop|]. split; [exact Hir|].
    split; [rewrite Hw, Hs; vm_compute; reflexivity|].
    split; [rewrite Hh, Hs; vm_compute; reflexivity|].
    split; [rewrite Hx, Hw, Hs; vm_compute; reflexivity|].
    split; [exact Bw|]. split; [exact Bh | exact Hr].
Defined.

Lemma build_catalog_pdf_empty_image_witness :
  exists e,
    build_catalog_pdf (R:=float) pillow_12 demo_date None
      [("a.jpg", demo_a); ("z.png", empty_img)] "T" "S" "F" = Raise e /\
    (e = empty_error pillow_12 \/ e = ZeroDivisionError) /\
    forall rename : string -> string,
      build_catalog_pdf (R:=float) pillow_12 demo_date None
        (map (fun p => (rename (fst p), snd p))
             [("a.jpg", demo_a); ("z.png", empty_img)]) "T" "S" "F" = Raise e.
Proof.
  exact (build_catalog_pdf_empty_image (R:=float) pillow_12 demo_date None
           [("a.jpg", demo_a); ("z.png", empty_img)] "T" "S" "F"
           "z.png" empty_img (or_intror (or_introl eq_refl)) eq_refl).
Defined.

(** C4, the claim as stated fails.  With one entry of zero width the call
    raises the exception of Pillow's encoder, whichever the version, and
    with an encoder that would write the image the one of the division;
    none is an InvalidImage error, and the exception is the same whatever
    the entry is called. *)
Lemma empty_image_error_not_InvalidImage :
  build_catalog_pdf (R:=float) pillow_12 demo_date None [("a.png", empty_img)]
                    "T" "S" "F" = Raise ValueError_empty /\
  build_catalog_pdf (R:=float) pillow_12 demo_date None [("b.png", empty_img)]
                    "T" "S" "F" = Raise ValueError_empty /\
  build_catalog_pdf (R:=float) pillow_11 demo_date None [("a.png", empty_img)]
                    "T" "S" "F" = Raise SystemError_tile /\
  build_catalog_pdf (R:=float) pillow_11 demo_date None [("b.png", empty_img)]
                    "T" "S" "F" = Raise SystemError_tile /\
  build_catalog_pdf (R:=float) lenient demo_date None [("a.png", empty_img)]
                    "T" "S" "F" = Raise ZeroDivisionError /\
  build_catalog_pdf (R:=float) lenient demo_date None [("b.png", empty_img)]
                    "T" "S" "F" = Raise ZeroDivisionError /\
  exn_class ValueError_empty <> "InvalidImage" /\
  exn_class SystemError_tile <> "InvalidImage" /\
  exn_class ZeroDivisionError <> "InvalidImage".
Proof.
  repeat split; try reflexivity; discriminate.
Qed.

Lemma build_catalog_pdf_without_logo_witness :
  exists d0 lr,
    build_catalog_pdf (R:=Q) pillow_12 demo_date None [("a.jpg", small_img)]
                      "T" "S" "F" = Ok d0 /\
    img_to_reader pillow_12 demo_logo = Ok lr /\
    doc_title d0 = doc_title small_doc /\
    List.length (doc_pages d0) = List.length (doc_pages small_doc) /\
    Forall2 (fun p1 p0 => adds_logo lr p1 p0 /\ text_ops p1 = text_ops p0)
            (doc_pages small_doc) (doc_pages d0).
Proof.
  refine (build_catalog_pdf_without_logo (R:=Q) pillow_12 demo_date demo_logo
            [("a.jpg", small_img)] "T" "S" "F" small_doc _).
  vm_compute. reflexivity.
Defined.

Lemma read_zip_images_undecodable_witness :
  exists e' name',
    read_zip_images broken_zip demo_decoder demo_convert [Byte.x89] = Raise e' /\
    In name' ["b.png"; "a.png"] /\ is_image_name name' = true /\
    (zread [("b.png", Ok []); ("a.png", Ok [Byte.x89])] name' = Raise e' \/
     exists data',
       zread [("b.png", Ok []); ("a.png", Ok [Byte.x89])] name' = Ok data' /\
       rbind (demo_decoder data') demo_convert = Raise e').
Proof.
  exact (read_zip_images_undecodable broken_zip demo_decoder demo_convert
           [Byte.x89]
           [("b.png", Ok []); ("a.png", Ok [Byte.x89])] "b.png" []
           UnidentifiedImageError
           eq_refl (or_introl eq_refl) eq_refl eq_refl eq_refl).
Defined.

(** C9, the claim as stated fails.  The archive opens and its first entry
    has an image name and bytes that the decoder rejects, yet the reader
    returns two pairs: the entry is shadowed by a later entry of the same
    name, whose bytes are read for both. *)
Lemma read_zip_images_shadowed_entry :
  exists z,
    shadowed_zip [Byte.x89] = Ok z /\
    nth_error z 0 = Some ("a.png", Ok []) /\
    is_image_name "a.png" = true /\
    demo_decoder [] = Raise UnidentifiedImageError /\
    read_zip_images shadowed_zip demo_decoder demo_convert [Byte.x89] =
      Ok [("a.png", mk_Image (1, 1)%N (Px_RGBA [(7, 7, 7, 255)]));
          ("a.png", mk_Image (1, 1)%N (Px_RGBA [(7, 7, 7, 255)]))].
Proof.
  eexists. repeat split; reflexivity.
Qed.

Lemma build_catalog_pdf_title_witness :
  doc_title small_doc = Some "T" /\
  exists cover,
    nth_error (doc_pages small_doc) 0 = Some cover /\
    nth_error cover 1 =
      Some (DrawString (lit 10 10 * inch)%py (H - lit 14 10 * inch)%py "T").
Proof.
  refine (build_catalog_pdf_title (R:=Q) pillow_12 demo_date (Some demo_logo)
            [("a.jpg", small_img)] "T" "S" "F" small_doc _).
  vm_compute. reflexivity.
Defined.

(* ===================================================================== *)
(** * Further properties of [img_to_reader]                               *)
(* ===================================================================== *)

(** An RGBA pixel whose four bands are bytes. *)
Definition byte_px (p : rgba) : Prop :=
  let '(r, g, b, a) := p in is_byte r /\ is_byte g /\ is_byte b /\ is_byte a.

Definition alpha_of (p : rgba) : Z := let '(_, _, _, a) := p in a.

(** [o] is no darker than the colour of [p] in any band. *)
Definition no_darker (p : rgba) (o : rgb) : Prop :=
  let '(r, g, b, _) := p in
  let '(r', g', b') := o in
  r <= r' <= 255 /\ g <= g' <= 255 /\ b <= b' <= 255.

Lemma over_white_byte_px (p : rgba) :
  byte_px p ->
  no_darker p (over_white p) /\
  (alpha_of p = 0 -> over_white p = white) /\
  (alpha_of p = 255 -> over_white p = let '(r, g, b, _) := p in (r, g, b)).
Proof.
  destruct p as [[[r g] b] a]. simpl. intros (Hr & Hg & Hb & Ha).
  destruct (BLEND8_white a r Ha Hr) as (Hr1 & Hr0 & Hrb).
  destruct (BLEND8_white a g Ha Hg) as (Hg1 & Hg0 & Hgb).
  destruct (BLEND8_white a b Ha Hb) as (Hb1 & Hb0 & Hbb).
  split; [auto|]. split; intros ->; unfold white; congruence.
Qed.

(** X1.  An RGBA image whose raster has one pixel per position and whose
    pixels are all opaque bytes goes through the compositing unchanged:
    the encoded image is the source without its alpha band, exactly what
    [convert("RGB")] gives. *)
Theorem img_to_reader_opaque acc img d r :
  pixels img = Px_RGBA d ->
  List.length d = N.to_nat (width img * height img) ->
  Forall (fun p => byte_px p /\ alpha_of p = 255) d ->
  img_to_reader acc img = Ok r ->
  reader_image r = convert_RGB img.
Proof.
  intros Hd Hlen Hall Hr.
  apply img_to_reader_ok_inv in Hr. subst r. simpl reader_image.
  unfold flattened, convert_RGB. rewrite Hd. f_equal. f_equal.
  unfold Image_new_RGB. rewrite paste_white_alpha.
  fold (width img) (height img). rewrite <- Hlen, firstn_all.
  clear Hlen Hd. induction Hall as [|p l [Hp Ha] _ IH]; simpl; [reflexivity|].
  f_equal; [|exact IH].
  destruct (over_white_byte_px p Hp) as (_ & _ & H255).
  rewrite (H255 Ha). destruct p as [[[r g] b] a]. reflexivity.
Qed.

(** X2.  On an RGBA image with one byte pixel per position the compositing
    only lightens: the encoded raster has as many pixels as the source, no
    band of a pixel is darker than in the source or exceeds 255, and a
    pixel of alpha 0 comes out white whatever its colour. *)
Theorem img_to_reader_lightens acc img d r :
  pixels img = Px_RGBA d ->
  List.length d = N.to_nat (width img * height img) ->
  Forall byte_px d ->
  img_to_reader acc img = Ok r ->
  exists out,
    pixels (reader_image r) = Px_RGB out /\
    Forall2 (fun p o => no_darker p o /\ (alpha_of p = 0 -> o = white)) d out.
Proof.
  intros Hd Hlen Hall Hr.
  apply img_to_reader_ok_inv in Hr. subst r. simpl reader_image.
  rewrite (flattened_RGBA img d Hd), <- Hlen, firstn_all.
  exists (map over_white d). split; [reflexivity|].
  clear Hlen Hd. induction Hall as [|p l Hp _ IH]; simpl; constructor.
  - destruct (over_white_byte_px p Hp) as (Hn & H0 & _). auto.
  - exact IH.
Qed.

(** X3.  Encoding is idempotent: the image held by a reader is already
    flat, and handing it to [img_to_reader] again gives the same reader. *)
Theorem img_to_reader_idempotent acc img r :
  img_to_reader acc img = Ok r ->
  img_to_reader acc (reader_image r) = Ok r.
Proof.
  intros Hr. pose proof Hr as Hinv.
  apply img_to_reader_ok_inv in Hinv. subst r. simpl reader_image.
  rewrite img_to_reader_cases in Hr |- *.
  rewrite flattened_is_empty.
  destruct (is_empty img && negb (accepts_empty acc)); [discriminate|].
  do 2 f_equal.
  unfold flattened at 1.
  assert (Hm : exists out, flattened img = mk_Image (size img) (Px_RGB out)).
  { unfold flattened, convert_RGB. destruct (pixels img); eexists; reflexivity. }
  destruct Hm as (out & ->). reflexivity.
Qed.

Lemma img_to_reader_opaque_witness :
  reader_image (mk_reader (flattened
     (mk_Image (2, 1)%N (Px_RGBA [(10, 20, 30, 255); (1, 2, 3, 255)])))) =
  convert_RGB (mk_Image (2, 1)%N (Px_RGBA [(10, 20, 30, 255); (1, 2, 3, 255)])).
Proof.
  refine (img_to_reader_opaque pillow_12
            (mk_Image (2, 1)%N (Px_RGBA [(10, 20, 30, 255); (1, 2, 3, 255)]))
            [(10, 20, 30, 255); (1, 2, 3, 255)] _ eq_refl eq_refl _ eq_refl).
  repeat constructor; unfold is_byte; lia.
Defined.

Lemma img_to_reader_lightens_witness :
  exists out,
    pixels (reader_image (mk_reader (flattened small_img))) = Px_RGB out /\
    Forall2 (fun p o => no_darker p o /\ (alpha_of p = 0 -> o = white))
            [(10, 20, 30, 128); (1, 2, 3, 255)] out.
Proof.
  refine (img_to_reader_lightens pillow_12 small_img
            [(10, 20, 30, 128); (1, 2, 3, 255)] _ eq_refl eq_refl _ eq_refl).
  repeat constructor; unfold is_byte; lia.
Defined.

Lemma img_to_reader_idempotent_witness :
  img_to_reader pillow_12 (reader_image (mk_reader (flattened small_img))) =
  Ok (mk_reader (flattened small_img)).
Proof.
  exact (img_to_reader_idempotent pillow_12 small_img _ eq_refl).
Defined.

(* ===================================================================== *)
(** * Further properties of the page layout                               *)
(* ===================================================================== *)

Lemma mapM_result_nth_inv {A B} (f : A -> result B) l bs :
  mapM_result f l = Ok bs ->
  forall i b, nth_error bs i = Some b ->
              exists a, nth_error l i = Some a /\ f a = Ok b.
Proof.
  revert bs; induction l as [|a0 l IH]; simpl; intros bs E i b Hi.
  - injection E as <-. destruct i; discriminate.
  - apply rbind_ok_inv in E. destruct E as (b0 & Eb & E).
    apply rbind_ok_inv in E. destruct E as (bs' & E' & E).
    injection E as <-.
    destruct i as [|i]; simpl in *.
    + injection Hi as <-. eauto.
    + eauto.
Qed.

Lemma mapM_result_app {A B} (f : A -> result B) l1 l2 bs :
  mapM_result f (l1 ++ l2) = Ok bs ->
  exists b1 b2,
    mapM_result f l1 = Ok b1 /\ mapM_result f l2 = Ok b2 /\
    bs = (b1 ++ b2)%list.
Proof.
  revert bs; induction l1 as [|a l1 IH]; simpl; intros bs E.
  - exists [], bs. auto.
  - apply rbind_ok_inv in E. destruct E as (b & Eb & E).
    apply rbind_ok_inv in E. destruct E as (bs' & E' & E).
    injection E as <-.
    destruct (IH bs' E') as (b1 & b2 & H1 & H2 & ->).
    exists (b :: b1), b2. rewrite Eb, H1. simpl. auto.
Qed.

Lemma enumerate_app {A} (l1 l2 : list A) k :
  enumerate k (l1 ++ l2) =
  (enumerate k l1 ++ enumerate (k + N.of_nat (List.length l1)) l2)%list.
Proof.
  revert k; induction l1 as [|a l1 IH]; intros k; simpl.
  - rewrite N.add_0_r. reflexivity.
  - f_equal. rewrite IH. do 2 f_equal. lia.
Qed.

Section Layout.

Variable acc : png_encoder.

(** X4.  With a logo, every page draws it once at a fixed place: operation
    6 of the cover and operation 4 of every entry page is the drawing of
    the logo's reader, 1.6u x 1.0u on the cover and 1.2u x 0.75u on the
    entry pages, and in the binary64 arithmetic of the program its right
    edge [x + w] is 0.8u from the right edge of the page and its top edge
    [y + h] is 0.9u from the top on all of them, without rounding error. *)
Theorem logo_top_right today logo images title subtitle footer
  (doc : Document float) k p :
  build_catalog_pdf acc today (Some logo) images title subtitle footer = Ok doc ->
  nth_error (doc_pages doc) k = Some p ->
  exists lr x y w h,
    img_to_reader acc logo = Ok lr /\
    nth_error p (match k with O => 6 | S _ => 4 end) =
      Some (DrawImage lr x y w h "auto") /\
    (x + w = W - lit 8 10 * inch)%py /\
    (y + h = H - lit 9 10 * inch)%py /\
    (w = (match k with O => lit 16 10 | S _ => lit 12 10 end) * inch)%py /\
    (h = (match k with O => lit 10 10 | S _ => lit 75 100 end) * inch)%py.
Proof.
  intros Hdoc Hp. rewrite build_catalog_pdf_eq in Hdoc.
  apply catalog_document_ok_inv in Hdoc.
  destruct Hdoc as (olr & ps & Hlr & Hps & ->).
  unfold logo_reader in Hlr.
  destruct (img_to_reader acc logo) as [lr|e]; [|discriminate].
  simpl in Hlr. injection Hlr as <-.
  destruct k as [|i]; simpl in Hp.
  - injection Hp as <-.
    do 5 eexists. split; [reflexivity|]. split; [reflexivity|].
    repeat split; vm_compute; reflexivity.
  - destruct (mapM_result_nth_inv _ _ _ Hps _ _ Hp) as ([idx [n img]] & _ & He).
    destruct (is_empty img) eqn:Ei.
    + rewrite (entry_render_empty acc (Some lr) footer idx n img Ei) in He.
      discriminate.
    + rewrite (entry_render_nonempty acc (Some lr) footer idx n img Ei) in He.
      assert (Ep : p = entry_ops (Some lr) footer idx n (mk_reader (flattened img))
                                 (fit_rect (width img) (height img)))
        by congruence.
      subst p.
      destruct (fit_rect (width img) (height img)) as [[[fx fy] fw] fh].
      do 5 eexists. split; [reflexivity|]. split; [reflexivity|].
      repeat split; vm_compute; reflexivity.
Qed.

End Layout.

Section Prefix.

Context {R : Type} {FR : PyFloat R}.
Variable acc : png_encoder.

(** X6.  Entries added at the end only add pages at the end: the catalog
    of the first entries alone has the same title, and its pages are the
    first pages of the longer catalog, operation for operation. *)
Theorem build_catalog_pdf_prefix today logo l1 l2 title subtitle footer
  (doc : Document R) :
  build_catalog_pdf acc today logo (l1 ++ l2) title subtitle footer = Ok doc ->
  exists doc1,
    build_catalog_pdf acc today logo l1 title subtitle footer = Ok doc1 /\
    doc_title doc1 = doc_title doc /\
    doc_pages doc1 = firstn (S (List.length l1)) (doc_pages doc).
Proof.
  intros Hdoc. rewrite build_catalog_pdf_eq in Hdoc.
  apply catalog_document_ok_inv in Hdoc.
  destruct Hdoc as (lr & ps & Hlr & Hps & ->).
  rewrite enumerate_app in Hps.
  apply mapM_result_app in Hps. destruct Hps as (p1 & p2 & H1 & _ & ->).
  exists (mk_Document (Some title)
            (cover_ops today lr title subtitle footer :: p1)).
  split.
  { rewrite build_catalog_pdf_eq. unfold catalog_document.
    rewrite Hlr. simpl. rewrite H1. reflexivity. }
  split; [reflexivity|].
  simpl. f_equal.
  pose proof (mapM_result_length _ _ _ H1) as Hlen.
  rewrite enumerate_length in Hlen. rewrite <- Hlen.
  rewrite firstn_app, firstn_all, Nat.sub_diag. simpl.
  rewrite app_nil_r. reflexivity.
Qed.

End Prefix.

(* ===================================================================== *)
(** * Further properties of [read_zip_images]                             *)
(* ===================================================================== *)

Lemma mapM_result_raise_first {A B} (f : A -> result B) l e :
  mapM_result f l = Raise e ->
  exists l1 a l2,
    l = (l1 ++ a :: l2)%list /\
    Forall (fun x => is_ok (f x) = true) l1 /\
    f a = Raise e.
Proof.
  induction l as [|a l IH]; simpl; intros E; [discriminate|].
  destruct (f a) as [b|e'] eqn:Ea; simpl in E.
  - destruct (mapM_result f l) as [bs|e'']; simpl in E; [discriminate|].
    destruct (IH E) as (l1 & a' & l2 & -> & Hall & Ha').
    exists (a :: l1), a', l2. split; [reflexivity|]. split; [|exact Ha'].
    constructor; [rewrite Ea; reflexivity | exact Hall].
  - injection E as <-. exists [], a, l. split; [reflexivity|].
    split; [constructor | exact Ea].
Qed.

Lemma find_last {A} (f : A -> bool) (l : list A) (x : A) :
  find f (rev l) = Some x ->
  exists l1 l2, l = (l1 ++ x :: l2)%list /\ f x = true /\
                forall y, In y l2 -> f y = false.
Proof.
  induction l as [|a l IH]; simpl; intros E; [discriminate|].
  destruct (find f (rev l)) as [x'|] eqn:El.
  - assert (Ex : x' = x).
    { clear IH. revert E El. generalize (rev l) as r.
      induction r as [|b r IHr]; simpl; intros E El; [discriminate|].
      destruct (f b); [congruence | auto]. }
    subst x'. destruct (IH eq_refl) as (l1 & l2 & -> & Hx & Hl2).
    exists (a :: l1), l2. auto.
  - assert (Ea : f a = true /\ a = x).
    { clear IH. revert E El. generalize (rev l) as r.
      induction r as [|b r IHr]; simpl; intros E El.
      - destruct (f a) eqn:Fa; [|discriminate]. split; congruence.
      - destruct (f b); [discriminate | auto]. }
    destruct Ea as [Fa <-].
    exists [], l. split; [reflexivity|]. split; [exact Fa|].
    intros y Hy. apply in_rev in Hy. exact (find_none _ _ El _ Hy).
Qed.

(** [z.read(name)] returns the bytes of the last entry of that name. *)
Lemma zread_last (z : ZipFile) (name : string) (data : bytes) :
  zread z name = Ok data ->
  exists z1 z2, z = (z1 ++ (name, Ok data) :: z2)%list /\
                ~ In name (namelist z2).
Proof.
  unfold zread. intros E.
  destruct (find (fun e => (fst e =? name)%string) (rev z)) as [[n d]|] eqn:Ef;
    [|discriminate].
  simpl in E. subst d.
  apply find_last in Ef. destruct Ef as (z1 & z2 & -> & Hn & Hz2).
  simpl in Hn. apply String.eqb_eq in Hn. subst n.
  exists z1, z2. split; [reflexivity|].
  unfold namelist. intros Hin. apply in_map_iff in Hin.
  destruct Hin as (e & He & Hin). specialize (Hz2 e Hin).
  rewrite He, String.eqb_refl in Hz2. discriminate.
Qed.

Section ArchiveReaderMore.

Context {Decoded : Type}.
Variable ZipFile_open : bytes -> result ZipFile.
Variable Image_open : bytes -> result Decoded.
Variable convert_RGBA : Decoded -> result rgba_image.

(** X7.  The reader returns a list exactly when the archive opens and, for
    every image name of the archive, the read under that name, the decoding
    of the bytes read and the conversion all succeed; names of other
    entries are never read and cannot make it fail. *)
Theorem read_zip_images_ok_iff zip_bytes :
  is_ok (read_zip_images ZipFile_open Image_open convert_RGBA zip_bytes) = true <->
  exists z,
    ZipFile_open zip_bytes = Ok z /\
    forall name, In name (namelist z) -> is_image_name name = true ->
      exists data opened img,
        zread z name = Ok data /\ Image_open data = Ok opened /\
        convert_RGBA opened = Ok img.
Proof.
  split.
  - intros Hok.
    destruct (ZipFile_open zip_bytes) as [z|e] eqn:Hz.
    + exists z. split; [reflexivity|].
      rewrite (read_zip_images_eq ZipFile_open Image_open convert_RGBA
                 zip_bytes z Hz) in Hok.
      rewrite mapM_result_is_ok, forallb_forall in Hok.
      intros name Hin Hi.
      assert (Hn : In name (filter is_image_name (sorted (namelist z)))).
      { apply visited_names. split; assumption. }
      specialize (Hok name Hn).
      destruct (decode_entry Image_open convert_RGBA z name) as [q|x] eqn:Hq;
        [|discriminate].
      apply decode_entry_ok in Hq.
      destruct Hq as (data & opened & img & Hd & Ho & Hc & _).
      exists data, opened, img. auto.
    + unfold read_zip_images in Hok. rewrite Hz in Hok. discriminate.
  - intros (z & Hz & Hall).
    rewrite (read_zip_images_eq ZipFile_open Image_open convert_RGBA
               zip_bytes z Hz).
    rewrite mapM_result_is_ok. apply forallb_forall. intros name Hn.
    apply visited_names in Hn. destruct Hn as [Hin Hi].
    destruct (Hall name Hin Hi) as (data & opened & img & Hd & Ho & Hc).
    rewrite (decode_entry_steps Image_open convert_RGBA z name _ _ _ Hd Ho Hc).
    reflexivity.
Qed.

(** X8.  When the reader fails on an archive that opens, the exception is
    the one of the first image name, in ascending order, for which the
    read, the decoding or the conversion raises, and it is the exception of
    the first of these three calls that raises; for every image name
    before it the three calls succeed. *)
Theorem read_zip_images_first_failure zip_bytes z e :
  ZipFile_open zip_bytes = Ok z ->
  read_zip_images ZipFile_open Image_open convert_RGBA zip_bytes = Raise e ->
  exists before name after,
    filter is_image_name (sorted (namelist z)) =
      (before ++ name :: after)%list /\
    Forall (fun n => exists d opened img,
              zread z n = Ok d /\ Image_open d = Ok opened /\
              convert_RGBA opened = Ok img) before /\
    (zread z name = Raise e \/
     exists data,
       zread z name = Ok data /\
       (Image_open data = Raise e \/
        exists opened, Image_open data = Ok opened /\
                       convert_RGBA opened = Raise e)).
Proof.
  intros Hz Hr.
  rewrite (read_zip_images_eq ZipFile_open Image_open convert_RGBA
             zip_bytes z Hz) in Hr.
  apply mapM_result_raise_first in Hr.
  destruct Hr as (l1 & name & l2 & Hl & Hall & Hn).
  exists l1, name, l2.
  split; [exact Hl|]. split.
  - rewrite Forall_forall in Hall |- *. intros n Hin.
    specialize (Hall n Hin).
    destruct (decode_entry Image_open convert_RGBA z n) as [q|x] eqn:Hq;
      [|discriminate].
    apply decode_entry_ok in Hq.
    destruct Hq as (d & opened & img & Hd & Ho & Hc & _).
    exists d, opened, img. auto.
  - apply decode_entry_raise. exact Hn.
Qed.

(** X9.  Entries are read by name, so of several entries with one name the
    last one in the archive supplies the image of every pair with that
    name: pairs with equal names carry equal images. *)
Theorem read_zip_images_last_entry_wins zip_bytes z out name img :
  ZipFile_open zip_bytes = Ok z ->
  read_zip_images ZipFile_open Image_open convert_RGBA zip_bytes = Ok out ->
  In (name, img) out ->
  exists z1 data z2 opened raw,
    z = (z1 ++ (name, Ok data) :: z2)%list /\
    ~ In name (namelist z2) /\
    Image_open data = Ok opened /\
    convert_RGBA opened = Ok raw /\
    img = Image_of_rgba raw.
Proof.
  intros Hz Hr Hin.
  rewrite (read_zip_images_eq ZipFile_open Image_open convert_RGBA
             zip_bytes z Hz) in Hr.
  assert (Hall : Forall (fun p : string * Image => exists data opened raw,
                   zread z (fst p) = Ok data /\ Image_open data = Ok opened /\
                   convert_RGBA opened = Ok raw /\
                   snd p = Image_of_rgba raw) out).
  { refine (mapM_result_Forall _ _ _ _ _ Hr). intros n p _ Hp.
    apply decode_entry_ok in Hp.
    destruct Hp as (d & o & c & Hd & Ho & Hc & ->).
    simpl. exists d, o, c. auto. }
  rewrite Forall_forall in Hall.
  destruct (Hall _ Hin) as (data & opened & raw & Hd & Ho & Hc & Hi).
  simpl in Hd, Hi.
  apply zread_last in Hd. destruct Hd as (z1 & z2 & Hzz & Hno).
  exists z1, data, z2, opened, raw. auto.
Qed.

End ArchiveReaderMore.

(* ===================================================================== *)
(** * The script of the form (lines 129-155)                              *)
(* ===================================================================== *)

(** One run of the Streamlit script.  The values of the widgets are the
    inputs of the run; the run yields the elements the script shows after
    the widgets, in order, and the exception that stopped it, if any.  The
    fixed header (page configuration, title, caption) and the widgets
    themselves are not recorded. *)

(** Case analysis of a membership in a list assembled from pieces. *)
Ltac scan_in H :=
  repeat match type of H with
         | In _ (_ ++ _)%list => apply in_app_or in H; destruct H as [H|H]
         | In _ (_ :: _) => destruct H as [H|H]; [try discriminate H|]
         | In _ [] => destruct H
         | In _ (match ?x with _ => _ end) => destruct x
         | False => destruct H
         end.

Section App.

Context {R : Type} {FR : PyFloat R}.
Context {Decoded : Type}.
Variable encoder : png_encoder.
Variable ZipFile_open : bytes -> result ZipFile.
Variable Image_open : bytes -> result Decoded.
Variable convert_RGBA : Decoded -> result rgba_image.

(** The widgets: the two uploaders hold the bytes of the uploaded file or
    nothing, [generate] is the value of the button. *)
Record widgets := mk_widgets {
  logo_file : option bytes;
  zip_file : option bytes;
  title : string;
  subtitle : string;
  footer : string;
  generate : bool
}.

Inductive element :=
| st_image (img : Image) (caption : string) (wd : Z)
| st_success (msg : string)
| st_info (msg : string)
| st_download_button (label : string) (data : Document R)
                     (file_name mime : string).

(** Lines 129-132: the logo, converted to RGBA when one was uploaded. *)
Definition load_logo (w : widgets) : result (option Image) :=
  match logo_file w with
  | Some f =>
      rbind (Image_open f) (fun opened =>
      rbind (convert_RGBA opened) (fun img =>
      Ok (Some (Image_of_rgba img))))
  | None => Ok None
  end.

Definition app (w : widgets) (today : date) : list element * option exn :=
  match load_logo w with
  | Raise e => ([], Some e)
  | Ok logo_img =>
      let shown :=
        match logo_img with
        | Some l => [st_image l "Logo preview" 220]
        | None => []
        end in
      match zip_file w with
      | Some zf =>
          match read_zip_images ZipFile_open Image_open convert_RGBA zf with
          | Raise e => (shown, Some e)
          | Ok images =>
              let shown :=
                (shown ++
                 [st_success ("Loaded " ++ str_of_N (N.of_nat (List.length images))
                              ++ " image(s) from ZIP.")] ++
                 match images with
                 | (name, img) :: _ => [st_image img ("Example: " ++ name) 400]
                 | [] => []
                 end)%list in
              if generate w then
                match build_catalog_pdf encoder today logo_img
                        images (title w) (subtitle w) (footer w) with
                | Ok pdf_bytes =>
                    ((shown ++
                      [st_download_button "Download catalog PDF" pdf_bytes
                         "catalog.pdf" "application/pdf"])%list, None)
                | Raise e => (shown, Some e)
                end
              else (shown, None)
          end
      | None =>
          ((shown ++
            [st_info "Upload a ZIP of images to generate a PDF catalog."])%list,
           None)
      end
  end.

(** The run offered the document [pdf] for download. *)
Definition offers (w : widgets) (today : date) (pdf : Document R) : Prop :=
  exists label file_name mime,
    In (st_download_button label pdf file_name mime) (fst (app w today)).

Lemma offers_inv w today pdf :
  offers w today pdf ->
  exists logo_img zf images,
    load_logo w = Ok logo_img /\
    zip_file w = Some zf /\
    read_zip_images ZipFile_open Image_open convert_RGBA zf = Ok images /\
    generate w = true /\
    build_catalog_pdf encoder today logo_img images
      (title w) (subtitle w) (footer w) = Ok pdf.
Proof.
  intros (label & fn & mime & Hin). unfold app in Hin.
  destruct (load_logo w) as [logo_img|e] eqn:Hl; [|destruct Hin].
  destruct (zip_file w) as [zf|] eqn:Hz.
  - destruct (read_zip_images ZipFile_open Image_open convert_RGBA zf) as [images|e] eqn:Hr.
    + destruct (generate w) eqn:Hg.
      * destruct (build_catalog_pdf encoder today logo_img images
                    (title w) (subtitle w) (footer w)) as [pdf'|e] eqn:Hb.
        -- exists logo_img, zf, images.
           cbn [fst] in Hin. scan_in Hin.
           injection Hin as _ <- _ _. auto.
        -- exfalso. cbn [fst] in Hin. scan_in Hin.
      * exfalso. cbn [fst] in Hin. scan_in Hin.
    + exfalso. cbn [fst] in Hin. scan_in Hin.
  - exfalso. cbn [fst] in Hin. scan_in Hin.
Qed.


Lemma read_zip_images_inv zf images :
  read_zip_images ZipFile_open Image_open convert_RGBA zf = Ok images ->
  exists z,
    ZipFile_open zf = Ok z /\
    mapM_result (decode_entry Image_open convert_RGBA z)
                (filter is_image_name (sorted (namelist z))) = Ok images.
Proof.
  intros Hr.
  destruct (ZipFile_open zf) as [z|e] eqn:Hz.
  - exists z. split; [reflexivity|].
    rewrite <- (read_zip_images_eq ZipFile_open Image_open convert_RGBA zf z Hz).
    exact Hr.
  - unfold read_zip_images in Hr. rewrite Hz in Hr. discriminate.
Qed.


(** X11.  The form offers a document for download in exactly one
    situation: the logo, if one was uploaded, decodes; an archive was
    uploaded and read; the button was pressed; and the logo and the images
    read are renderable.  The run then ends without an exception. *)
Theorem app_offers_iff w today :
  (exists pdf, offers w today pdf) <->
  exists logo_img zf images,
    load_logo w = Ok logo_img /\
    zip_file w = Some zf /\
    read_zip_images ZipFile_open Image_open convert_RGBA zf = Ok images /\
    generate w = true /\
    renderable encoder logo_img images = true /\
    snd (app w today) = None.
Proof.
  split.
  - intros (pdf & Hoff).
    destruct (offers_inv w today pdf Hoff)
      as (logo_img & zf & images & Hl & Hz & Hr & Hg & Hb).
    exists logo_img, zf, images.
    repeat (split; [assumption|]).
    split.
    + rewrite <- (build_catalog_pdf_is_ok encoder today logo_img
                    images (title w) (subtitle w) (footer w)).
      rewrite Hb. reflexivity.
    + unfold app. rewrite Hl, Hz, Hr, Hg, Hb. reflexivity.
  - intros (logo_img & zf & images & Hl & Hz & Hr & Hg & Hren & _).
    rewrite <- (build_catalog_pdf_is_ok encoder today logo_img
                  images (title w) (subtitle w) (footer w)) in Hren.
    apply is_ok_true in Hren. destruct Hren as (pdf & Hb).
    exists pdf, "Download catalog PDF", "catalog.pdf", "application/pdf".
    unfold app. rewrite Hl, Hz, Hr, Hg, Hb. cbn [fst].
    apply in_or_app. right. left. reflexivity.
Qed.

(** X12.  The document the form offers has one page per entry of the
    archive with an image name, after the cover, in ascending order of the
    names whatever the order of the archive: page i+1 carries the source
    line of the i-th name.  The success message shows the same count. *)
Theorem app_pages_by_name w today pdf :
  offers w today pdf ->
  exists zf z names,
    zip_file w = Some zf /\
    ZipFile_open zf = Ok z /\
    Permutation names (filter is_image_name (namelist z)) /\
    ascending names /\
    List.length (doc_pages pdf) = S (List.length names) /\
    In (st_success ("Loaded " ++ str_of_N (N.of_nat (List.length names))
                    ++ " image(s) from ZIP."))
       (fst (app w today)) /\
    forall i name,
      nth_error names i = Some name ->
      exists p,
        nth_error (doc_pages pdf) (S i) = Some p /\
        nth_error p 3 =
          Some (DrawString (lit 10 10 * inch)%py (H - lit 125 100 * inch)%py
                           ("Source: " ++ name)).
Proof.
  intros Hoff.
  destruct (offers_inv w today pdf Hoff)
    as (logo_img & zf & images & Hl & Hz & Hr & Hg & Hb).
  destruct (read_zip_images_inv zf images Hr) as (z & Ho & Hm).
  pose proof (mapM_result_fst Image_open convert_RGBA z _ images Hm) as Hfst.
  exists zf, z, (map fst images).
  split; [exact Hz|]. split; [exact Ho|].
  split; [rewrite Hfst; apply filter_perm, sorted_perm|].
  split; [rewrite Hfst; apply filter_ascending, sorted_ascending|].
  pose proof Hb as Hd. rewrite build_catalog_pdf_eq in Hd.
  apply catalog_document_ok_inv in Hd.
  destruct Hd as (lr & ps & Hlr & Hps & ->).
  split.
  { cbn [doc_pages List.length]. rewrite length_map.
    pose proof (mapM_result_length _ _ _ Hps) as Hlen.
    rewrite enumerate_length in Hlen. unfold page in *. congruence. }
  split.
  { unfold app. rewrite Hl, Hz, Hr, Hg, Hb. cbn [fst].
    rewrite length_map. apply in_or_app. left.
    apply in_or_app. right. left. reflexivity. }
  intros i name Hi.
  rewrite nth_error_map in Hi.
  destruct (nth_error images i) as [[n img]|] eqn:Hn; [|discriminate].
  simpl in Hi. injection Hi as ->.
  destruct (entry_page_of_document encoder lr (footer w) images
              ps Hps i name img Hn) as (_ & Hp).
  eexists. split; [exact Hp|].
  destruct (fit_rect (width img) (height img)) as [[[x y] wd] h].
  reflexivity.
Qed.


End App.

(* ===================================================================== *)
(** * Concrete runs of the further properties                             *)
(* ===================================================================== *)

Definition small_b : Image :=
  mk_Image (1, 2)%N (Px_RGBA [(200, 100, 50, 255); (0, 0, 0, 0)]).

(** The catalog of two small entries without a logo. *)
Definition two_doc : Document Q :=
  Eval vm_compute in
    match build_catalog_pdf (R:=Q) pillow_12 demo_date None
                            [("a.jpg", small_img); ("b.png", small_b)]
                            "T" "S" "F" with
    | Ok d => d
    | Raise _ => mk_Document None []
    end.

(** An archive with two entries of one name. *)
Definition twice_zip (b : bytes) : result ZipFile :=
  Ok [("a.png", Ok [Byte.x01]); ("a.png", Ok b)].

Definition BadZipFile (name : string) : exn :=
  mk_exn "BadZipFile" ("Bad CRC-32 for file '" ++ name ++ "'").

(** An archive that opens but whose first image name, in the order of the
    names, cannot be read. *)
Definition corrupt_zip (b : bytes) : result ZipFile :=
  Ok [("b.png", Ok b); ("a.png", Raise (BadZipFile "a.png"))].

(** A stand-in for the decoder that reads the first byte as a grey level,
    and for the conversion one that makes the pixel half transparent. *)
Definition grey_decoder (data : bytes) : result Z :=
  match data with
  | [] => Raise UnidentifiedImageError
  | b :: _ => Ok (Z.of_N (Byte.to_N b))
  end.

Definition grey_convert (level : Z) : result rgba_image :=
  Ok (mk_rgba (1, 1)%N [(level, level, level, 128)]).

Definition demo_widgets : widgets :=
  mk_widgets (Some [Byte.x89]) (Some [Byte.x50]) "T" "S" "F" true.

(** The document that the form offers for [demo_widgets]. *)
Definition demo_pdf : Document Q :=
  Eval vm_compute in
    match app (R:=Q) pillow_12 demo_zip grey_decoder grey_convert
              demo_widgets demo_date with
    | (shown, _) =>
        match last shown (st_info "") with
        | st_download_button _ d _ _ => d
        | _ => mk_Document None []
        end
    end.

Lemma demo_offers :
  offers (R:=Q) pillow_12 demo_zip grey_decoder grey_convert
         demo_widgets demo_date demo_pdf.
Proof.
  exists "Download catalog PDF", "catalog.pdf", "application/pdf".
  vm_compute. do 3 right. left. reflexivity.
Qed.

Lemma logo_top_right_witness :
  exists lr x y w h,
    img_to_reader pillow_12 demo_logo = Ok lr /\
    nth_error (nth 1 (doc_pages small_doc64) []) 4 =
      Some (DrawImage lr x y w h "auto") /\
    (x + w = W - lit 8 10 * inch)%py /\
    (y + h = H - lit 9 10 * inch)%py.
Proof.
  destruct (logo_top_right pillow_12 demo_date demo_logo [("a.jpg", small_img)]
              "T" "S" "F" small_doc64 1 (nth 1 (doc_pages small_doc64) []))
    as (lr & x & y & w & h & Hlr & Hn & Hx & Hy & _).
  - vm_compute. reflexivity.
  - reflexivity.
  - exists lr, x, y, w, h. auto.
Defined.

Lemma build_catalog_pdf_prefix_witness :
  exists doc1,
    build_catalog_pdf (R:=Q) pillow_12 demo_date None [("a.jpg", small_img)]
                      "T" "S" "F" = Ok doc1 /\
    doc_title doc1 = doc_title two_doc /\
    doc_pages doc1 = firstn 2 (doc_pages two_doc).
Proof.
  refine (build_catalog_pdf_prefix (R:=Q) pillow_12 demo_date None
            [("a.jpg", small_img)] [("b.png", small_b)] "T" "S" "F" two_doc _).
  vm_compute. reflexivity.
Defined.

Lemma read_zip_images_first_failure_witness :
  exists before name after,
    filter is_image_name
      (sorted (namelist [("b.png", Ok [Byte.x89]);
                         ("a.png", Raise (BadZipFile "a.png"))])) =
      (before ++ name :: after)%list /\
    Forall (fun n => exists d opened img,
              zread [("b.png", Ok [Byte.x89]);
                     ("a.png", Raise (BadZipFile "a.png"))] n = Ok d /\
              demo_decoder d = Ok opened /\ demo_convert opened = Ok img)
           before /\
    (zread [("b.png", Ok [Byte.x89]);
            ("a.png", Raise (BadZipFile "a.png"))] name =
       Raise (BadZipFile "a.png") \/
     exists data,
       zread [("b.png", Ok [Byte.x89]);
              ("a.png", Raise (BadZipFile "a.png"))] name = Ok data /\
       (demo_decoder data = Raise (BadZipFile "a.png") \/
        exists opened, demo_decoder data = Ok opened /\
                       demo_convert opened = Raise (BadZipFile "a.png"))).
Proof.
  exact (read_zip_images_first_failure corrupt_zip demo_decoder demo_convert
           [Byte.x89]
           [("b.png", Ok [Byte.x89]); ("a.png", Raise (BadZipFile "a.png"))]
           (BadZipFile "a.png") eq_refl eq_refl).
Defined.

Lemma read_zip_images_last_entry_wins_witness :
  exists z1 data z2 opened raw,
    [("a.png", Ok [Byte.x01]); ("a.png", Ok [Byte.x02])] =
      (z1 ++ ("a.png", Ok data) :: z2)%list /\
    ~ In "a.png" (namelist z2) /\
    grey_decoder data = Ok opened /\
    grey_convert opened = Ok raw /\
    mk_Image (1, 1)%N (Px_RGBA [(2, 2, 2, 128)]) = Image_of_rgba raw.
Proof.
  refine (read_zip_images_last_entry_wins twice_zip grey_decoder grey_convert
            [Byte.x02]
            [("a.png", Ok [Byte.x01]); ("a.png", Ok [Byte.x02])]
            [("a.png", mk_Image (1, 1)%N (Px_RGBA [(2, 2, 2, 128)]));
             ("a.png", mk_Image (1, 1)%N (Px_RGBA [(2, 2, 2, 128)]))]
            "a.png" (mk_Image (1, 1)%N (Px_RGBA [(2, 2, 2, 128)]))
            eq_refl _ (or_introl eq_refl)).
  vm_compute. reflexivity.
Defined.

Lemma app_pages_by_name_witness :
  exists zf z names,
    zip_file demo_widgets = Some zf /\
    demo_zip zf = Ok z /\
    Permutation names (filter is_image_name (namelist z)) /\
    ascending names /\
    List.length (doc_pages demo_pdf) = S (List.length names).
Proof.
  destruct (app_pages_by_name pillow_12 demo_zip grey_decoder grey_convert
              demo_widgets demo_date demo_pdf demo_offers)
    as (zf & z & names & Hz & Ho & Hp & Ha & Hl & _).
  exists zf, z, names. auto.
Defined.



